(** * The quiz-session server of [src/index.js]

    A shallow embedding of the [GameManager] registry and of the socket
    event handlers ([create_game], [start_game], [next_question],
    [show_results], [join_game], [submit_answer], [disconnect]) together
    with the two helpers [sendQuestion] and [getLeaderboard].

    - The registry is a JavaScript [Map]: it iterates in insertion order and
      [removePlayer] depends on that order, so it is an association list.
    - [game.answers] is a plain object used as a dictionary of dictionaries:
      a [gmap] from the question index to a [gmap] from socket id to the
      recorded answer index.
    - The game objects are shared by reference and mutated in place; every
      handler therefore returns the registry it leaves behind, also when it
      throws half way.
    - Streaks and indices are [Z].  The client's [timeLeft] is the number
      written in the payload, a rational; the handler reads it as the
      nearest double and evaluates the scoring expression in IEEE-754
      binary64, every operation rounded.  A score is a whole number and is
      a [Z]; a score that the code leaves at [Infinity] or [NaN] has no
      counterpart, and the handler that produces one ends as [NotFinite].
    - [join_game] and [submit_answer] destructure their payload; the
      events [join_game_undefined] and [submit_answer_undefined] are these
      events sent without one. *)

From stdpp Require Import base decidable option list gmap strings fin_maps.
From Stdlib Require Import ZArith QArith Qround Lia.
From Stdlib Require Import Floats.SpecFloat.
From stdpp Require Import sorting.
From Stdlib Require Import Sorting.Sorted.

Local Open Scope Z_scope.

(** ** Data model *)

(** A player entry [{ id, nickname, score, streak }]. *)
Record Player := mkPlayer {
  pid : string;
  nickname : string;
  score : Z;
  streak : Z
}.

(** A question as supplied by the host; [timeLimit] may be absent. *)
Record Question := mkQuestion {
  text : string;
  options : list string;
  correctIndex : Z;
  timeLimit : option Z
}.

(** [state: 'LOBBY', 'QUESTION', 'RESULT', 'LEADERBOARD', 'END'] *)
Inductive Phase := LOBBY | QUESTION | RESULT | LEADERBOARD | END.

Record Game := mkGame {
  pin : string;
  hostId : string;
  players : list Player;
  questions : list Question;
  currentQuestionIndex : Z;
  state : Phase;
  answers : gmap Z (gmap string Z)
}.

#[global] Instance Phase_eq_dec : EqDecision Phase.
Proof. solve_decision. Defined.

#[global] Instance Player_eq_dec : EqDecision Player.
Proof. solve_decision. Defined.

(** In-place assignments to the fields of a game object. *)
Definition set_players (ps : list Player) (g : Game) : Game :=
  mkGame (pin g) (hostId g) ps (questions g) (currentQuestionIndex g)
         (state g) (answers g).

Definition set_questions (qs : list Question) (g : Game) : Game :=
  mkGame (pin g) (hostId g) (players g) qs (currentQuestionIndex g)
         (state g) (answers g).

Definition set_index (i : Z) (g : Game) : Game :=
  mkGame (pin g) (hostId g) (players g) (questions g) i (state g) (answers g).

Definition set_state (ph : Phase) (g : Game) : Game :=
  mkGame (pin g) (hostId g) (players g) (questions g)
         (currentQuestionIndex g) ph (answers g).

Definition set_answers (a : gmap Z (gmap string Z)) (g : Game) : Game :=
  mkGame (pin g) (hostId g) (players g) (questions g)
         (currentQuestionIndex g) (state g) a.

(** ** Outbound messages *)

(** Where a message goes: [io.to(room)], [io.to(room).except(other)] or
    [socket.emit] on the calling socket. *)
Inductive Target :=
| ToRoom (room : string)
| ToRoomExcept (room other : string)
| ToCaller (sock : string).

Inductive Payload :=
| game_created (p : string)
| game_started
| new_question_host (q : option Question)
| new_question_player (txt : string) (opts : list string) (limit : Z)
                      (index total : Z)
| game_over (leaderboard : list Player)
| question_results (correctAnswer : Z) (leaderboard : list Player)
| player_joined (ps : list Player)
| joined_success (p nick : string)
| error (msg : string)
| player_answered (playerId : string) (count : Z)
| host_disconnected
| player_left (ps : list Player).

Definition Emit : Type := Target * Payload.

(** How a handler ends: it returns, it throws the [TypeError] of a
    property read on [undefined], or the random source supplied to
    [createGame] ran dry before a free pin came up.  [NotFinite] is a
    return of [submit_answer] after which the score of the participant is
    [Infinity] or [NaN] in the code: the registry of the result then still
    shows the score from before. *)
Inductive Completion := Returned | TypeError | OutOfDraws | NotFinite.

(** ** GameManager *)

(** [this.games]: pin -> game object, in insertion order. *)
Definition GameManager : Type := list (string * Game).

Fixpoint getGame (gm : GameManager) (p : string) : option Game :=
  match gm with
  | [] => None
  | (k, g) :: rest => if decide (k = p) then Some g else getGame rest p
  end.

Definition has (gm : GameManager) (p : string) : bool :=
  match getGame gm p with Some _ => true | None => false end.

(** Writing through the reference obtained from [getGame]. *)
Fixpoint putGame (p : string) (g' : Game) (gm : GameManager) : GameManager :=
  match gm with
  | [] => []
  | (k, g) :: rest =>
      if decide (k = p) then (k, g') :: rest else (k, g) :: putGame p g' rest
  end.

(** [this.games.delete(pin)] *)
Fixpoint deleteGame (p : string) (gm : GameManager) : GameManager :=
  match gm with
  | [] => []
  | (k, g) :: rest =>
      if decide (k = p) then deleteGame p rest else (k, g) :: deleteGame p rest
  end.

(** The rejection loop of [createGame]: [draw] is the first random pin, and
    [redraws] the ones that follow while the pin is taken. *)
Fixpoint freshPin (gm : GameManager) (draw : string) (redraws : list string)
  : option string :=
  if has gm draw then
    match redraws with
    | [] => None
    | d :: ds => freshPin gm d ds
    end
  else Some draw.

Definition newGame (p hostSocketId : string) : Game :=
  mkGame p hostSocketId [] [] (-1) LOBBY ∅.

Definition createGame (gm : GameManager) (hostSocketId draw : string)
    (redraws : list string) : option (GameManager * string) :=
  match freshPin gm draw redraws with
  | Some p => Some (gm ++ [(p, newGame p hostSocketId)], p)
  | None => None
  end.

Definition addPlayer (gm : GameManager) (p : string) (pl : Player)
  : GameManager * bool :=
  match getGame gm p with
  | Some g => (putGame p (set_players (players g ++ [pl]) g) gm, true)
  | None => (gm, false)
  end.

(** [players.findIndex(p => p.id === socketId) !== -1] followed by
    [splice(playerIndex, 1)]: drops the first entry with that id. *)
Fixpoint hasPlayer (sock : string) (ps : list Player) : bool :=
  match ps with
  | [] => false
  | p :: rest => if decide (pid p = sock) then true else hasPlayer sock rest
  end.

Fixpoint spliceFirst (sock : string) (ps : list Player) : list Player :=
  match ps with
  | [] => []
  | p :: rest =>
      if decide (pid p = sock) then rest else p :: spliceFirst sock rest
  end.

(** The value returned by [removePlayer]: [{ pin, game }] or
    [{ pin, game, isHost: true }]. *)
Record Removal := mkRemoval {
  r_pin : string;
  r_game : Game;
  isHost : bool
}.

(** The scan of [removePlayer]: [rest] are the entries still to visit, in
    insertion order, and [seen] the ones already passed.  The first entry in
    which the socket is a player or the host ends the scan. *)
Fixpoint removeScan (sock : string) (seen rest : GameManager)
  : GameManager * option Removal :=
  match rest with
  | [] => (seen, None)
  | (k, g) :: rest' =>
      if hasPlayer sock (players g) then
        let g' := set_players (spliceFirst sock (players g)) g in
        (seen ++ (k, g') :: rest', Some (mkRemoval k g' false))
      else if decide (hostId g = sock) then
        (deleteGame k (seen ++ (k, g) :: rest'), Some (mkRemoval k g true))
      else removeScan sock (seen ++ [(k, g)]) rest'
  end.

Definition removePlayer (gm : GameManager) (sock : string)
  : GameManager * option Removal :=
  removeScan sock [] gm.

(** ** Helpers of the handlers *)

(** [array[i]] with a number index: [undefined] below 0 and from
    [length] on. *)
Definition questionAt (qs : list Question) (i : Z) : option Question :=
  if i <? 0 then None else qs !! Z.to_nat i.

(** [question.timeLimit || 20] *)
Definition effectiveLimit (q : Question) : Z :=
  match timeLimit q with
  | Some t => if t =? 0 then 20 else t
  | None => 20
  end.

(** [Array.prototype.sort] with the comparator [(a, b) => b.score - a.score]:
    a stable sort by descending score.  [insertDesc] puts an entry in front
    of the first one whose score is not larger, so entries of equal score
    keep their order. *)
Fixpoint insertDesc (p : Player) (sorted : list Player) : list Player :=
  match sorted with
  | [] => [p]
  | q :: rest =>
      if score q <=? score p then p :: q :: rest
      else q :: insertDesc p rest
  end.

Definition sortDesc (ps : list Player) : list Player :=
  foldr insertDesc [] ps.

(** [getLeaderboard(game)]: [sort] works in place on [game.players], and
    [slice(0, 5)] copies the first five entries.  The function returns the
    game object as the call leaves it, and the returned array. *)
Definition getLeaderboard (g : Game) : Game * list Player :=
  let sorted := sortDesc (players g) in
  (set_players sorted g, take 5 sorted).

(** [sendQuestion(pin)]: the host gets the question object as it is (also
    when it is [undefined]); building the players' message then reads
    [question.text], which throws on [undefined]. *)
Definition sendQuestion (gm : GameManager) (p : string)
  : list Emit * Completion :=
  match getGame gm p with
  | None => ([], TypeError)
  | Some g =>
      let question := questionAt (questions g) (currentQuestionIndex g) in
      let toHost := (ToRoom (hostId g), new_question_host question) in
      match question with
      | None => ([toHost], TypeError)
      | Some q =>
          ([toHost;
            (ToRoomExcept p (hostId g),
             new_question_player (text q) (options q) (effectiveLimit q)
               (currentQuestionIndex g) (Z.of_nat (length (questions g))))],
           Returned)
      end
  end.

(** ** Double precision

    A JavaScript number is an IEEE-754 binary64 value and every arithmetic
    operation rounds to nearest, ties to even.  [spec_float] at precision
    53 with maximal exponent 1024 is that format, and [SFadd], [SFmul] and
    [SFdiv] are its rounded operations. *)
Module Binary64.

Definition prec : Z := 53.
Definition emax : Z := 1024.

Definition of_Z (z : Z) : spec_float := binary_normalize prec emax z 0 false.

(** The double that a number written in a payload is read as: the quotient
    of numerator and denominator, rounded once. *)
Definition of_Q (q : Q) : spec_float :=
  match Qnum q with
  | Z0 => S754_zero false
  | Zpos n =>
      SFdiv prec emax (S754_finite false n 0) (S754_finite false (Qden q) 0)
  | Zneg n =>
      SFdiv prec emax (S754_finite true n 0) (S754_finite false (Qden q) 0)
  end.

(** [Math.floor] of a finite double; [None] for NaN and the infinities. *)
Definition floor (x : spec_float) : option Z :=
  match x with
  | S754_zero _ => Some 0
  | S754_finite s m e =>
      let v := if s then Z.neg m else Z.pos m in
      Some (if 0 <=? e then v * 2 ^ e else v / 2 ^ (- e))
  | S754_infinity _ => None
  | S754_nan => None
  end.

Definition points64 (timeLeft : Z) : option Z :=
  match floor (SFmul prec emax (of_Z 500)
                 (SFdiv prec emax (of_Z timeLeft) (of_Z 20))) with
  | Some f => Some (500 + f)
  | None => None
  end.

Definition agrees (t : Z) : bool :=
  match points64 t with
  | Some v => v =? 500 + 25 * t
  | None => false
  end.

(** [Math.floor] as a function from doubles to doubles: zeros, infinities
    and NaN are returned as they are, and so is a double without a
    fractional part. *)
Definition Math_floor (x : spec_float) : spec_float :=
  match x with
  | S754_finite s m e =>
      if 0 <=? e then x
      else of_Z ((if s then Z.neg m else Z.pos m) / 2 ^ (- e))
  | _ => x
  end.

(** The whole number that a double is, if it is one. *)
Definition toZ (x : spec_float) : option Z :=
  match x with
  | S754_zero _ => Some 0
  | S754_finite s m e =>
      let v := if s then Z.neg m else Z.pos m in
      if 0 <=? e then Some (v * 2 ^ e)
      else if v mod 2 ^ (- e) =? 0 then Some (v / 2 ^ (- e)) else None
  | S754_infinity _ => None
  | S754_nan => None
  end.

(** [500 + Math.floor(500 * (timeLeft / 20))] *)
Definition awardedPoints (timeLeft : spec_float) : spec_float :=
  SFadd prec emax (of_Z 500)
    (Math_floor (SFmul prec emax (of_Z 500)
                   (SFdiv prec emax timeLeft (of_Z 20)))).

(** [x + y] on two whole numbers. *)
Definition plus (x y : Z) : option Z :=
  toZ (SFadd prec emax (of_Z x) (of_Z y)).

(** The finite double with mantissa [M] and exponent [E] is the whole
    number [V], and its mantissa has 53 bits. *)
Definition represents (V : Z) (M : positive) (E : Z) : Prop :=
  Z.log2 (Z.pos M) = 52 /\ -52 <= E <= 1 /\
  (if E <=? 0 then Z.pos M = V * 2 ^ (- E) else V = Z.pos M * 2 ^ E).

End Binary64.

(** The scoring formula [500 + floor(500 * (timeLeft / 20))] read over the
    rationals, without any rounding; the handler uses [awarded]. *)
Definition points (timeLeft : Q) : Z :=
  500 + Qfloor (500 * (timeLeft / 20))%Q.

(** [const points = 500 + Math.floor(500 * (timeLeft / 20))] as the code
    computes it; [None] when the result is [Infinity] or [NaN]. *)
Definition awarded (timeLeft : Q) : option Z :=
  Binary64.toZ (Binary64.awardedPoints (Binary64.of_Q timeLeft)).

(** [if (game.answers[i][socket.id])]: a recorded answer guards only when it
    is truthy; the number 0 is not. *)
Definition truthy (recorded : option Z) : bool :=
  match recorded with
  | Some a => negb (a =? 0)
  | None => false
  end.

(** [players.find(p => p.id === socket.id)] followed by an update of the
    entry found: the first entry with that id, if any. *)
Fixpoint updateFirst (sock : string) (f : Player -> Player)
    (ps : list Player) : list Player :=
  match ps with
  | [] => []
  | p :: rest =>
      if decide (pid p = sock) then f p :: rest
      else p :: updateFirst sock f rest
  end.

(** [player.score += points] on two whole numbers: the rounded sum,
    [None] when it is not finite. *)
Definition addScore (s pts : Z) : option Z := Binary64.plus s pts.

(** The score after a correct answer sent with [timeLeft]. *)
Definition newScore (s : Z) (timeLeft : Q) : option Z :=
  match awarded timeLeft with
  | Some pts => addScore s pts
  | None => None
  end.

(** [player.score += points; player.streak++] *)
Definition scored (timeLeft : Q) (p : Player) : Player :=
  mkPlayer (pid p) (nickname p)
           (default (score p) (newScore (score p) timeLeft))
           (streak p + 1).

(** [game.players.find(p => p.id === socket.id)] *)
Definition findPlayer (sock : string) (ps : list Player) : option Player :=
  List.find (fun p => bool_decide (pid p = sock)) ps.

(** How the scoring branch ends: [NotFinite] if a player entry was found
    and its new score is not a finite number. *)
Definition scoringEnds (sock : string) (timeLeft : Q) (ps : list Player)
  : Completion :=
  match findPlayer sock ps with
  | Some p =>
      match newScore (score p) timeLeft with
      | Some _ => Returned
      | None => NotFinite
      end
  | None => Returned
  end.

(** [player.streak = 0] *)
Definition resetStreak (p : Player) : Player :=
  mkPlayer (pid p) (nickname p) (score p) 0.

(** ** The event handlers *)

Record Result := mkResult {
  gm_after : GameManager;
  emitted : list Emit;
  completion : Completion
}.

Definition ignored (gm : GameManager) : Result := mkResult gm [] Returned.

Definition on_create_game (sock : string) (qs : list Question)
    (draw : string) (redraws : list string) (gm : GameManager) : Result :=
  match createGame gm sock draw redraws with
  | None => mkResult gm [] OutOfDraws
  | Some (gm1, p) =>
      match getGame gm1 p with
      | None => mkResult gm1 [] TypeError
      | Some g =>
          mkResult (putGame p (set_questions qs g) gm1)
                   [(ToCaller sock, game_created p)] Returned
      end
  end.

Definition on_start_game (sock p : string) (gm : GameManager) : Result :=
  match getGame gm p with
  | None => ignored gm
  | Some g =>
      if decide (hostId g = sock) then
        let gm1 := putGame p (set_index 0 (set_state QUESTION g)) gm in
        let '(out, c) := sendQuestion gm1 p in
        mkResult gm1 ((ToRoom p, game_started) :: out) c
      else ignored gm
  end.

Definition on_next_question (sock p : string) (gm : GameManager) : Result :=
  match getGame gm p with
  | None => ignored gm
  | Some g =>
      if decide (hostId g = sock) then
        let i := currentQuestionIndex g + 1 in
        let g1 := set_index i g in
        if i <? Z.of_nat (length (questions g1)) then
          let g2 := set_answers (<[i := ∅]> (answers g1))
                                (set_state QUESTION g1) in
          let gm1 := putGame p g2 gm in
          let '(out, c) := sendQuestion gm1 p in
          mkResult gm1 out c
        else
          let '(g2, board) := getLeaderboard (set_state END g1) in
          mkResult (putGame p g2 gm) [(ToRoom p, game_over board)] Returned
      else ignored gm
  end.

Definition on_show_results (sock p : string) (gm : GameManager) : Result :=
  match getGame gm p with
  | None => ignored gm
  | Some g =>
      if decide (hostId g = sock) then
        let g1 := set_state RESULT g in
        match questionAt (questions g1) (currentQuestionIndex g1) with
        | None => mkResult (putGame p g1 gm) [] TypeError
        | Some q =>
            let '(g2, board) := getLeaderboard g1 in
            mkResult (putGame p g2 gm)
                     [(ToRoom p, question_results (correctIndex q) board)]
                     Returned
        end
      else ignored gm
  end.

Definition playersOf (gm : GameManager) (p : string) : list Player :=
  match getGame gm p with
  | Some g => players g
  | None => []
  end.

Definition join_error : string := "Game not found or already started".

Definition on_join_game (sock p nick : string) (gm : GameManager) : Result :=
  let rejected := mkResult gm [(ToCaller sock, error join_error)] Returned in
  match getGame gm p with
  | None => rejected
  | Some g =>
      if decide (state g = LOBBY) then
        let player := mkPlayer sock nick 0 0 in
        let gm1 := fst (addPlayer gm p player) in
        mkResult gm1
                 [(ToRoom p, player_joined (playersOf gm1 p));
                  (ToCaller sock, joined_success p nick)]
                 Returned
      else rejected
  end.

Definition on_submit_answer (sock p : string) (answerIndex : Z)
    (timeLeft : Q) (gm : GameManager) : Result :=
  match getGame gm p with
  | None => ignored gm
  | Some g =>
      if decide (state g = QUESTION) then
        let i := currentQuestionIndex g in
        match questionAt (questions g) i with
        | None => mkResult gm [] TypeError
        | Some currentQ =>
            let isCorrect := bool_decide (correctIndex currentQ = answerIndex) in
            let a1 := match answers g !! i with
                      | Some _ => answers g
                      | None => <[i := ∅]> (answers g)
                      end in
            let forQuestion := default ∅ (a1 !! i) in
            if truthy (forQuestion !! sock) then
              mkResult (putGame p (set_answers a1 g) gm) [] Returned
            else
              let forQuestion' := <[sock := answerIndex]> forQuestion in
              let a2 := <[i := forQuestion']> a1 in
              let ps :=
                if isCorrect
                then updateFirst sock (scored timeLeft) (players g)
                else updateFirst sock resetStreak (players g) in
              mkResult (putGame p (set_players ps (set_answers a2 g)) gm)
                       [(ToRoom (hostId g),
                         player_answered sock
                           (Z.of_nat (size forQuestion')))]
                       (if isCorrect
                        then scoringEnds sock timeLeft (players g)
                        else Returned)
        end
      else ignored gm
  end.

Definition on_disconnect (sock : string) (gm : GameManager) : Result :=
  match removePlayer gm sock with
  | (gm1, None) => mkResult gm1 [] Returned
  | (gm1, Some r) =>
      if isHost r
      then mkResult gm1 [(ToRoom (r_pin r), host_disconnected)] Returned
      else mkResult gm1 [(ToRoom (r_pin r), player_left (players (r_game r)))]
                    Returned
  end.

(** [socket.on('join_game', ({ pin, nickname }) => ...)] and
    [socket.on('submit_answer', ({ pin, answerIndex, timeLeft }) => ...)]
    called without a payload, or with [null]: the destructuring of the
    parameter throws before the body is entered. *)
Definition on_undefined_payload (gm : GameManager) : Result :=
  mkResult gm [] TypeError.

(** An inbound event; the socket it arrives on is passed to [handle].
    [join_game_undefined] and [submit_answer_undefined] are [join_game]
    and [submit_answer] sent without a payload. *)
Inductive Event :=
| create_game (qs : list Question) (draw : string) (redraws : list string)
| start_game (p : string)
| next_question (p : string)
| show_results (p : string)
| join_game (p nick : string)
| submit_answer (p : string) (answerIndex : Z) (timeLeft : Q)
| disconnect
| join_game_undefined
| submit_answer_undefined.

Definition handle (sock : string) (e : Event) (gm : GameManager) : Result :=
  match e with
  | create_game qs draw redraws => on_create_game sock qs draw redraws gm
  | start_game p => on_start_game sock p gm
  | next_question p => on_next_question sock p gm
  | show_results p => on_show_results sock p gm
  | join_game p nick => on_join_game sock p nick gm
  | submit_answer p a t => on_submit_answer sock p a t gm
  | disconnect => on_disconnect sock gm
  | join_game_undefined => on_undefined_payload gm
  | submit_answer_undefined => on_undefined_payload gm
  end.

(** Running a sequence of events, each with the socket it arrives on.  An
    event whose handler throws leaves behind what it had written so far. *)
Fixpoint run (es : list (string * Event)) (gm : GameManager) : GameManager :=
  match es with
  | [] => gm
  | (sock, e) :: rest => run rest (gm_after (handle sock e gm))
  end.

(** ** What one event can do to one session

    [game_step sock p g e g']: the event [e] arriving on socket [sock] can
    turn the session object [g] registered under pin [p] into [g'].  One
    constructor per write path of the handlers; [step_none] is every path
    that leaves the object as it is (another session addressed, a caller
    that is not the host, a rejected join). *)
Inductive game_step (sock p : string) (g : Game) : Event -> Game -> Prop :=
| step_none e :
    game_step sock p g e g
| step_start :
    hostId g = sock ->
    game_step sock p g (start_game p) (set_index 0 (set_state QUESTION g))
| step_next_question :
    hostId g = sock ->
    currentQuestionIndex g + 1 < Z.of_nat (length (questions g)) ->
    game_step sock p g (next_question p)
      (set_answers (<[currentQuestionIndex g + 1 := ∅]> (answers g))
         (set_state QUESTION (set_index (currentQuestionIndex g + 1) g)))
| step_next_end :
    hostId g = sock ->
    Z.of_nat (length (questions g)) <= currentQuestionIndex g + 1 ->
    game_step sock p g (next_question p)
      (set_players (sortDesc (players g))
         (set_state END (set_index (currentQuestionIndex g + 1) g)))
| step_show_throws :
    hostId g = sock ->
    questionAt (questions g) (currentQuestionIndex g) = None ->
    game_step sock p g (show_results p) (set_state RESULT g)
| step_show :
    hostId g = sock ->
    game_step sock p g (show_results p)
      (set_players (sortDesc (players g)) (set_state RESULT g))
| step_join nick :
    state g = LOBBY ->
    game_step sock p g (join_game p nick)
      (set_players (players g ++ [mkPlayer sock nick 0 0]) g)
| step_submit_dropped a t recorded :
    state g = QUESTION ->
    game_step sock p g (submit_answer p a t) (set_answers recorded g)
| step_submit_correct a t recorded :
    state g = QUESTION ->
    game_step sock p g (submit_answer p a t)
      (set_players (updateFirst sock (scored t) (players g))
         (set_answers recorded g))
| step_submit_wrong a t recorded :
    state g = QUESTION ->
    game_step sock p g (submit_answer p a t)
      (set_players (updateFirst sock resetStreak (players g))
         (set_answers recorded g))
| step_leave :
    hasPlayer sock (players g) = true ->
    game_step sock p g disconnect
      (set_players (spliceFirst sock (players g)) g).

(** ** Properties of the registry that the theorems speak about *)










(** No session lists its own host among its players. *)
Definition host_outside (gm : GameManager) : Prop :=
  forall p g, getGame gm p = Some g -> hasPlayer (hostId g) (players g) = false.

Definition host_outside_b (gm : GameManager) : bool :=
  forallb (fun kg => negb (hasPlayer (hostId (snd kg)) (players (snd kg)))) gm.

(** The event is a [join_game] that the host of the session sends for its
    own session. *)
Definition host_joins (gm : GameManager) (sock : string) (e : Event) : bool :=
  match e with
  | join_game p _ =>
      match getGame gm p with
      | Some g => bool_decide (hostId g = sock)
      | None => false
      end
  | _ => false
  end.

Fixpoint no_host_join (gm : GameManager) (es : list (string * Event)) : bool :=
  match es with
  | [] => true
  | (sock, e) :: rest =>
      negb (host_joins gm sock e) &&
      no_host_join (gm_after (handle sock e gm)) rest
  end.

(** The event is a [start_game] from the host of a session that is already
    past its first question. *)
Definition restarts (gm : GameManager) (sock : string) (e : Event) : bool :=
  match e with
  | start_game p =>
      match getGame gm p with
      | Some g => bool_decide (hostId g = sock) && (0 <? currentQuestionIndex g)
      | None => false
      end
  | _ => false
  end.

Definition is_disconnect (e : Event) : bool :=
  match e with disconnect => true | _ => false end.

(** A sequence of events without [disconnect] in which no [start_game]
    restarts a session. *)
Fixpoint no_restart (gm : GameManager) (es : list (string * Event)) : bool :=
  match es with
  | [] => true
  | (sock, e) :: rest =>
      negb (restarts gm sock e) && negb (is_disconnect e) &&
      no_restart (gm_after (handle sock e gm)) rest
  end.

(** The condition under which [join_game] takes its [else] branch. *)
Definition join_rejected (gm : GameManager) (p : string) : bool :=
  match getGame gm p with
  | Some g => negb (bool_decide (state g = LOBBY))
  | None => true
  end.

(** [game.answers[i][socket.id]] in the session with pin [p]. *)
Definition recordedAnswer (gm : GameManager) (p : string) (i : Z)
    (sock : string) : option Z :=
  match getGame gm p with
  | Some g =>
      match answers g !! i with
      | Some forQuestion => forQuestion !! sock
      | None => None
      end
  | None => None
  end.

(** ** A session to run the handlers on

    The scenario of the specification: the host creates a session with two
    questions and draws the pin 482913, Ana and Bo join, the host starts. *)
Module Scenario.

Definition thePin : string := "482913".
Definition host : string := "socket-host".
Definition ana : string := "socket-ana".
Definition bo : string := "socket-bo".

Definition q0 : Question :=
  mkQuestion "Capital of France?" ["Paris"; "Rome"; "Oslo"] 0 None.
Definition q1 : Question :=
  mkQuestion "2 + 2?" ["3"; "4"] 1 (Some 10).

Definition created : GameManager :=
  run [(host, create_game [q0; q1] thePin [])] [].

Definition lobby : GameManager :=
  run [(ana, join_game thePin "Ana"); (bo, join_game thePin "Bo")] created.

Definition asking : GameManager :=
  run [(host, start_game thePin)] lobby.

(** Bo answers question 0 correctly with 15 s left, Ana answers wrongly. *)
Definition answered : GameManager :=
  run [(bo, submit_answer thePin 0 15); (ana, submit_answer thePin 2 3)]
      asking.

(** Ana answers question 0 with the correct option 0 and 20 s left, and
    then sends the same submission once more. *)
Definition anaOnce : GameManager :=
  run [(ana, submit_answer thePin 0 20)] asking.
Definition anaTwice : GameManager :=
  run [(ana, submit_answer thePin 0 20)] anaOnce.

(** The host goes through both questions; the second [next_question] ends
    the game. *)
Definition ended : GameManager :=
  run [(host, next_question thePin); (host, next_question thePin)] asking.

(** The host joins its own session while it is in LOBBY. *)
Definition hostJoined : GameManager :=
  run [(host, join_game thePin "Host")] created.

(** The host opens a second session, for which it draws the pin 111111. *)
Definition otherPin : string := "111111".
Definition twoSessions : GameManager :=
  run [(host, create_game [q0] otherPin [])] lobby.

(** A session whose host supplied no question at all. *)
Definition emptyQuiz : GameManager :=
  run [(host, create_game [] thePin [])] [].

End Scenario.
(** ** Further properties of the registry *)

(** The registry is a [Map]: no pin is registered twice, and every session
    object carries the pin it is registered under. *)
Definition well_formed (gm : GameManager) : Prop :=
  NoDup (map fst gm) /\ Forall (fun kg => pin (snd kg) = fst kg) gm.

(** The pin an event names, if it names one. *)
Definition addressed (e : Event) : option string :=
  match e with
  | start_game p | next_question p | show_results p
  | join_game p _ | submit_answer p _ _ => Some p
  | create_game _ _ _ | disconnect
  | join_game_undefined | submit_answer_undefined => None
  end.

(** The index is at least -1, and a session in phase QUESTION has a
    current question. *)
Definition question_ready (g : Game) : Prop :=
  -1 <= currentQuestionIndex g /\
  (state g = QUESTION ->
   is_Some (questionAt (questions g) (currentQuestionIndex g))).

Definition all_ready (gm : GameManager) : Prop :=
  forall p g, getGame gm p = Some g -> question_ready g.

Definition question_ready_b (g : Game) : bool :=
  (-1 <=? currentQuestionIndex g) &&
  (negb (bool_decide (state g = QUESTION)) ||
   match questionAt (questions g) (currentQuestionIndex g) with
   | Some _ => true
   | None => false
   end).

Definition all_ready_b (gm : GameManager) : bool :=
  forallb (fun kg => question_ready_b (snd kg)) gm.

(** The event is a [start_game] from the host of a session that has no
    question. *)
Definition starts_empty (gm : GameManager) (sock : string) (e : Event) : bool :=
  match e with
  | start_game p =>
      match getGame gm p with
      | Some g =>
          bool_decide (hostId g = sock) && bool_decide (questions g = [])
      | None => false
      end
  | _ => false
  end.

Fixpoint no_empty_start (gm : GameManager) (es : list (string * Event))
  : bool :=
  match es with
  | [] => true
  | (sock, e) :: rest =>
      negb (starts_empty gm sock e) &&
      no_empty_start (gm_after (handle sock e gm)) rest
  end.

(** The event is a [show_results] from the host of a session that has no
    current question. *)
Definition reveals_nothing (gm : GameManager) (sock : string) (e : Event)
  : bool :=
  match e with
  | show_results p =>
      match getGame gm p with
      | Some g =>
          bool_decide (hostId g = sock) &&
          match questionAt (questions g) (currentQuestionIndex g) with
          | Some _ => false
          | None => true
          end
      | None => false
      end
  | _ => false
  end.

(** The event is a [join_game] or a [submit_answer] sent without a
    payload. *)
Definition without_payload (e : Event) : bool :=
  match e with
  | join_game_undefined | submit_answer_undefined => true
  | _ => false
  end.

(** Every streak in every session is at least 0. *)
Definition streaks_nonneg (gm : GameManager) : Prop :=
  forall p g pl, getGame gm p = Some g -> pl ∈ players g -> 0 <= streak pl.

Definition streaks_nonneg_b (gm : GameManager) : bool :=
  forallb (fun kg => forallb (fun pl => 0 <=? streak pl) (players (snd kg))) gm.

(** Answers are on record only under the index of a question of the
    session. *)
Definition answers_in_bounds (g : Game) : Prop :=
  -1 <= currentQuestionIndex g /\
  forall i, is_Some (answers g !! i) ->
            0 <= i < Z.of_nat (length (questions g)).

Definition all_answers_in_bounds (gm : GameManager) : Prop :=
  forall p g, getGame gm p = Some g -> answers_in_bounds g.

(** The number of answers on record for question [i] of the session with
    pin [p]: [Object.keys(game.answers[i]).length]. *)
Definition answerCount (gm : GameManager) (p : string) (i : Z) : Z :=
  match getGame gm p with
  | Some g =>
      match answers g !! i with
      | Some forQuestion => Z.of_nat (size forQuestion)
      | None => 0
      end
  | None => 0
  end.


(** The guards of the host commands and of [submit_answer]: the event
    names no session, or comes from a socket that is not the host, or is a
    submission to a session that is not in phase QUESTION. *)
Definition stale (gm : GameManager) (sock : string) (e : Event) : bool :=
  match e with
  | start_game p | next_question p | show_results p =>
      match getGame gm p with
      | Some g => negb (bool_decide (hostId g = sock))
      | None => true
      end
  | submit_answer p _ _ =>
      match getGame gm p with
      | Some g => negb (bool_decide (state g = QUESTION))
      | None => true
      end
  | _ => false
  end.

(** The socket is neither a player nor the host of any session. *)
Definition unknown_socket (gm : GameManager) (sock : string) : bool :=
  forallb (fun kg => negb (hasPlayer sock (players (snd kg))) &&
                     negb (bool_decide (hostId (snd kg) = sock))) gm.

(** ** The scoring expression *)

(** The association of the source, [500 * (timeLeft / 20)], and the one of
    the formula [500 * timeLeft / 20] give the same number. *)
Lemma points_formula (timeLeft : Q) :
  points timeLeft = 500 + Qfloor (500 * timeLeft / 20)%Q.
Proof.
  unfold points. f_equal. apply Qfloor_comp. field.
Qed.

(** For a whole number of seconds the bonus is the integer quotient. *)
Lemma points_integer (t : Z) :
  points (inject_Z t) = 500 + 500 * t / 20.
Proof.
  unfold points. f_equal.
  transitivity (Qfloor ((500 * t) # 20)).
  - apply Qfloor_comp. unfold Qeq, inject_Z. simpl. lia.
  - reflexivity.
Qed.

Lemma points_integer_25 (t : Z) : points (inject_Z t) = 500 + 25 * t.
Proof.
  rewrite points_integer. f_equal.
  replace (500 * t) with (25 * t * 20) by lia.
  apply Z.div_mul. lia.
Qed.

(** *** Double-precision evaluation *)

Lemma agrees_on_window :
  forallb Binary64.agrees (seqZ (-160) 483) = true.
Proof. vm_compute. reflexivity. Qed.

(** On every whole number of seconds from -160 to 322, which contains the
    20 s window of a question, the rounded evaluation awards the points of
    the exact one. *)
Lemma points64_exact (t : Z) :
  -160 <= t <= 322 -> Binary64.points64 t = Some (points (inject_Z t)).
Proof.
  intros Ht.
  pose proof agrees_on_window as Hall.
  rewrite forallb_forall in Hall.
  assert (Hin : In t (seqZ (-160) 483)).
  { apply list_elem_of_In, elem_of_seqZ. lia. }
  specialize (Hall t Hin). unfold Binary64.agrees in Hall.
  rewrite points_integer_25.
  destruct (Binary64.points64 t) as [v|]; [|discriminate].
  apply Z.eqb_eq in Hall. congruence.
Qed.

(** Further out the rounding of the quotient can cost a point: 323 / 20 is
    rounded down, and 500 times the rounded quotient stays below 8075. *)
Remark points64_rounds_down_at_323 :
  Binary64.points64 323 = Some 8574 /\ points (inject_Z 323) = 8575.
Proof. split; vm_compute; reflexivity. Qed.


(** *** Sums of safe integers

    The whole numbers from [-2^53] to [2^53] are doubles, and the rounded
    sum of two of them is their sum whenever that is within the range
    again. *)

Lemma iter_pos_iter {A} (f : A -> A) (n : positive) (x : A) :
  SpecFloat.iter_pos f n x = Pos.iter f x n.
Proof.
  revert x. induction n as [n IH|n IH|]; intros x; simpl.
  - rewrite !IH. rewrite <- Pos.iter_swap. rewrite <- Pos.iter_swap. reflexivity.
  - rewrite !IH. reflexivity.
  - reflexivity.
Qed.

Lemma digits2_log2 (m : positive) :
  Z.pos (digits2_pos m) = Z.log2 (Z.pos m) + 1.
Proof.
  induction m as [m IH|m IH|]; simpl digits2_pos;
    rewrite ?Pos2Z.inj_succ, ?IH.
  - rewrite Pos2Z.inj_xI, Z.log2_succ_double; lia.
  - rewrite Pos2Z.inj_xO, Z.log2_double; lia.
  - reflexivity.
Qed.

Lemma iter_xO (m k : positive) :
  Z.pos (Pos.iter xO m k) = Z.pos m * 2 ^ Z.pos k.
Proof.
  induction k as [|k IH] using Pos.peano_ind.
  - simpl. lia.
  - rewrite Pos.iter_succ, Pos2Z.inj_xO, IH, Pos2Z.inj_succ, Z.pow_succ_r; lia.
Qed.

Lemma iter_shr_exact (k m : positive) :
  SpecFloat.iter_pos shr_1 k
    {| shr_m := Z.pos m * 2 ^ Z.pos k; shr_r := false; shr_s := false |}
  = {| shr_m := Z.pos m; shr_r := false; shr_s := false |}.
Proof.
  rewrite iter_pos_iter. revert m.
  induction k as [|k IH] using Pos.peano_ind; intros m.
  - replace (Z.pos m * 2 ^ 1) with (Z.pos m~0) by lia. reflexivity.
  - rewrite Pos.iter_succ.
    replace (Z.pos m * 2 ^ Z.pos (Pos.succ k)) with (Z.pos m~0 * 2 ^ Z.pos k)
      by (rewrite Pos2Z.inj_succ, Z.pow_succ_r; lia).
    rewrite IH. reflexivity.
Qed.

Lemma shr_fexp_exact (M0 : positive) (n e : Z) :
  0 <= n -> Z.log2 (Z.pos M0) = 52 -> -1074 <= e + n ->
  shr_fexp Binary64.prec Binary64.emax (Z.pos M0 * 2 ^ n) e loc_Exact =
  ({| shr_m := Z.pos M0; shr_r := false; shr_s := false |}, e + n).
Proof.
  intros Hn Hlog He. unfold shr_fexp.
  assert (Hpos : 0 < Z.pos M0 * 2 ^ n) by (apply Z.mul_pos_pos; lia).
  destruct (Z.pos M0 * 2 ^ n) as [|q|q] eqn:Hq; try lia.
  assert (Hd : Zdigits2 (Z.pos q) = n + 53).
  { simpl. rewrite digits2_log2, <- Hq, Z.log2_mul_pow2 by lia. lia. }
  rewrite Hd. unfold fexp, emin, Binary64.prec, Binary64.emax.
  replace (Z.max (n + 53 + e - 53) (3 - 1024 - 53) - e) with n by lia.
  unfold shr. destruct n as [|pn|pn]; try lia.
  - simpl in Hq. rewrite Z.mul_1_r in Hq. rewrite <- Hq, Z.add_0_r. reflexivity.
  - simpl shr_record_of_loc. rewrite <- Hq, iter_shr_exact. reflexivity.
Qed.

Lemma binary_round_aux_exact (sx : bool) (M0 : positive) (n e : Z) :
  0 <= n -> Z.log2 (Z.pos M0) = 52 -> -1074 <= e + n <= 971 ->
  binary_round_aux Binary64.prec Binary64.emax sx (Z.pos M0 * 2 ^ n) e loc_Exact =
  S754_finite sx M0 (e + n).
Proof.
  intros Hn Hlog He. unfold binary_round_aux.
  rewrite shr_fexp_exact by lia. simpl loc_of_shr_record. simpl round_nearest_even.
  simpl shr_m at 1.
  replace (Z.pos M0) with (Z.pos M0 * 2 ^ 0) at 1 by lia.
  rewrite shr_fexp_exact by lia. simpl shr_m.
  rewrite Z.add_0_r. unfold Binary64.emax, Binary64.prec.
  destruct (Z.leb_spec (e + n) (1024 - 53)); [reflexivity | lia].
Qed.

Lemma log2_safe (V : Z) : 0 < V <= 2 ^ 53 -> 0 <= Z.log2 V <= 53.
Proof.
  intros HV. split; [apply Z.log2_nonneg|].
  change 53 with (Z.log2 (2 ^ 53)). apply Z.log2_le_mono. lia.
Qed.

Lemma binary_round_exact (sx : bool) (m : positive) (j V : Z) :
  0 <= j <= 52 -> 0 < V <= 2 ^ 53 -> Z.pos m = V * 2 ^ j ->
  exists M,
    binary_round Binary64.prec Binary64.emax sx m (- j) = S754_finite sx M (Z.log2 V - 52) /\
    Binary64.represents V M (Z.log2 V - 52).
Proof.
  intros Hj HV Hm.
  pose proof (log2_safe V HV) as HL.
  pose proof (Z.log2_spec V ltac:(lia)) as Hspec.
  set (L := Z.log2 V) in *.
  (* the mantissa of the result *)
  assert (HM0 : exists M0 : positive,
             Z.log2 (Z.pos M0) = 52 /\
             (if L - 52 <=? 0 then Z.pos M0 = V * 2 ^ (- (L - 52))
              else V = Z.pos M0 * 2 ^ (L - 52))).
  { destruct (Z.leb_spec (L - 52) 0) as [Hle|Hgt].
    - assert (Hpos : 0 < V * 2 ^ (- (L - 52))) by (apply Z.mul_pos_pos; lia).
      destruct (V * 2 ^ (- (L - 52))) as [|M0|M0] eqn:HM0; try lia.
      exists M0. split; [|reflexivity].
      rewrite <- HM0, Z.log2_mul_pow2 by lia. fold L. lia.
    - assert (L = 53) by lia. exists (2 ^ 52)%positive. split; [reflexivity|].
      replace (L - 52) with 1 by lia.
      assert (2 ^ 53 <= V) by (replace 53 with L by lia; apply Hspec).
      lia. }
  destruct HM0 as (M0 & Hlog & Hval).
  exists M0. split; [|split; [exact Hlog | split; [lia | exact Hval]]].
  unfold binary_round.
  assert (Hf : fexp Binary64.prec Binary64.emax (Z.pos (digits2_pos m) + - j) = L - 52).
  { rewrite digits2_log2, Hm, Z.log2_mul_pow2 by lia. fold L.
    unfold fexp, emin, Binary64.prec, Binary64.emax. lia. }
  rewrite Hf. unfold shl_align.
  destruct (L - 52 - - j) as [|n|n] eqn:Hn.
  - (* no shift *)
    replace (Z.pos m) with (Z.pos M0 * 2 ^ 0).
    + rewrite binary_round_aux_exact by lia. f_equal. lia.
    + rewrite Hm. destruct (Z.leb_spec (L - 52) 0).
      * rewrite Hval. replace (- (L - 52)) with j by lia. lia.
      * lia.
  - (* the mantissa is too long: shifted right by the rounding *)
    replace (Z.pos m) with (Z.pos M0 * 2 ^ Z.pos n).
    + rewrite binary_round_aux_exact by lia. f_equal. lia.
    + rewrite Hm. destruct (Z.leb_spec (L - 52) 0).
      * rewrite Hval, <- Z.mul_assoc, <- Z.pow_add_r by lia.
        f_equal. f_equal. lia.
      * rewrite Hval at 1. rewrite <- Z.mul_assoc, <- Z.pow_add_r by lia.
        f_equal. f_equal. lia.
  - (* the mantissa is short: shifted left *)
    replace (Z.pos (Pos.iter xO m n)) with (Z.pos M0 * 2 ^ 0).
    + rewrite binary_round_aux_exact by lia. f_equal. lia.
    + rewrite iter_xO, Hm. destruct (Z.leb_spec (L - 52) 0); [|lia].
      rewrite Hval, Z.pow_0_r, Z.mul_1_r, <- Z.mul_assoc, <- Z.pow_add_r by lia.
      f_equal. f_equal. lia.
Qed.

Lemma toZ_represents (sx : bool) (V : Z) (M : positive) (E : Z) :
  0 < V -> Binary64.represents V M E ->
  Binary64.toZ (S754_finite sx M E) = Some (if sx then - V else V).
Proof.
  intros HV (_ & HE & Hval). unfold Binary64.toZ.
  set (v := if sx then Z.neg M else Z.pos M).
  destruct (Z.leb_spec 0 E) as [H0|Hneg].
  - f_equal. destruct (Z.leb_spec E 0).
    + replace E with 0 in * by lia. simpl in Hval. subst v.
      destruct sx; lia.
    + replace E with 1 in * by lia. subst v. destruct sx; lia.
  - destruct (Z.leb_spec E 0); [|lia].
    assert (Hv : v = (if sx then - V else V) * 2 ^ (- E)).
    { subst v. destruct sx; lia. }
    assert (0 < 2 ^ (- E)) by (apply Z.pow_pos_nonneg; lia).
    rewrite Hv, Z.mod_mul, Z.div_mul by lia. reflexivity.
Qed.

(** The double of a safe integer other than 0. *)
Lemma of_Z_exact (z : Z) :
  z <> 0 -> - 2 ^ 53 <= z <= 2 ^ 53 ->
  exists M E, Binary64.of_Z z = S754_finite (z <? 0) M E /\ Binary64.represents (Z.abs z) M E.
Proof.
  intros Hz Hb. unfold Binary64.of_Z, binary_normalize.
  destruct z as [|m|m]; [contradiction| |].
  - destruct (binary_round_exact false m 0 (Z.pos m)) as (M & HM & Hr);
      [lia | lia | lia |].
    exists M, (Z.log2 (Z.pos m) - 52). split; assumption.
  - destruct (binary_round_exact true m 0 (Z.pos m)) as (M & HM & Hr);
      [lia | lia | lia |].
    exists M, (Z.log2 (Z.pos m) - 52). split; assumption.
Qed.

Lemma toZ_of_Z (z : Z) :
  - 2 ^ 53 <= z <= 2 ^ 53 -> Binary64.toZ (Binary64.of_Z z) = Some z.
Proof.
  intros Hb. destruct (Z.eq_dec z 0) as [->|Hz]; [reflexivity|].
  destruct (of_Z_exact z Hz Hb) as (M & E & -> & Hr).
  rewrite (toZ_represents _ (Z.abs z)) by (assumption || lia).
  f_equal. destruct (Z.ltb_spec z 0); lia.
Qed.

Lemma shl_align_value (V : Z) (M : positive) (E ez : Z) :
  Binary64.represents V M E -> ez <= E -> ez <= 0 ->
  Z.pos (fst (shl_align M E ez)) = V * 2 ^ (- ez).
Proof.
  intros (_ & HE & Hval) Hle H0. unfold shl_align.
  assert (Hgoal : Z.pos M * 2 ^ (E - ez) = V * 2 ^ (- ez)).
  { destruct (Z.leb_spec E 0).
    - rewrite Hval, <- Z.mul_assoc, <- Z.pow_add_r by lia.
      f_equal. f_equal. lia.
    - rewrite Hval, <- Z.mul_assoc, <- Z.pow_add_r by lia.
      reflexivity. }
  destruct (ez - E) as [|d|d] eqn:Hd; simpl fst.
  - rewrite <- Hgoal. replace (E - ez) with 0 by lia. lia.
  - lia.
  - rewrite iter_xO, <- Hgoal. f_equal. f_equal. lia.
Qed.

Lemma plus_exact (s p : Z) :
  - 2 ^ 53 <= s <= 2 ^ 53 -> - 2 ^ 53 <= p <= 2 ^ 53 ->
  - 2 ^ 53 <= s + p <= 2 ^ 53 ->
  Binary64.plus s p = Some (s + p).
Proof.
  intros Hs Hp Hsum. unfold Binary64.plus.
  destruct (Z.eq_dec s 0) as [->|Hs0].
  { change (Binary64.of_Z 0) with (S754_zero false).
    destruct (Z.eq_dec p 0) as [->|Hp0]; [reflexivity|].
    destruct (of_Z_exact p Hp0 Hp) as (M & E & Hof & Hr).
    rewrite Z.add_0_l, <- (toZ_of_Z p Hp), Hof. reflexivity. }
  destruct (Z.eq_dec p 0) as [->|Hp0].
  { change (Binary64.of_Z 0) with (S754_zero false).
    destruct (of_Z_exact s Hs0 Hs) as (M & E & Hof & Hr).
    rewrite Z.add_0_r, <- (toZ_of_Z s Hs). rewrite Hof. reflexivity. }
  destruct (of_Z_exact s Hs0 Hs) as (Ms & Es & -> & Hrs).
  destruct (of_Z_exact p Hp0 Hp) as (Mp & Ep & -> & Hrp).
  unfold SFadd.
  set (ez := Z.min Es Ep).
  pose proof Hrs as (Hls & HEs & Hvs). pose proof Hrp as (Hlp & HEp & Hvp).
  destruct (Z.leb_spec ez 0) as [Hez|Hez].
  - (* the common exponent is at most 0 *)
    rewrite (shl_align_value _ _ _ _ Hrs) by lia.
    rewrite (shl_align_value _ _ _ _ Hrp) by lia.
    assert (Hsumv :
              cond_Zopp (s <? 0) (Z.abs s * 2 ^ (- ez)) +
              cond_Zopp (p <? 0) (Z.abs p * 2 ^ (- ez))
              = (s + p) * 2 ^ (- ez)).
    { unfold cond_Zopp.
      destruct (Z.ltb_spec s 0), (Z.ltb_spec p 0); lia. }
    rewrite Hsumv.
    assert (Hpow : 0 < 2 ^ (- ez)) by (apply Z.pow_pos_nonneg; lia).
    destruct (Z.eq_dec (s + p) 0) as [Hzero|Hnz].
    { rewrite Hzero. reflexivity. }
    unfold binary_normalize.
    destruct ((s + p) * 2 ^ (- ez)) as [|m|m] eqn:Hm.
    + apply Z.mul_eq_0 in Hm as [Hm|Hm]; lia.
    + assert (0 < s + p) by nia.
      destruct (binary_round_exact false m (- ez) (s + p)) as (M & HM & Hr);
        [lia | lia | lia |].
      rewrite Z.opp_involutive in HM. rewrite HM.
      rewrite (toZ_represents _ (s + p)) by (assumption || lia). reflexivity.
    + assert (s + p < 0) by nia.
      destruct (binary_round_exact true m (- ez) (- (s + p))) as (M & HM & Hr);
        [lia | lia | lia |].
      rewrite Z.opp_involutive in HM. rewrite HM.
      rewrite (toZ_represents _ (- (s + p))) by (assumption || lia).
      f_equal. lia.
  - (* both are 2^53 in magnitude *)
    assert (Es = 1 /\ Ep = 1) as [-> ->] by lia.
    simpl in Hvs, Hvp.
    pose proof (Z.log2_spec (Z.pos Ms) ltac:(lia)) as Hbs.
    pose proof (Z.log2_spec (Z.pos Mp) ltac:(lia)) as Hbp.
    rewrite Hls in Hbs. rewrite Hlp in Hbp.
    subst ez. simpl Z.min. unfold shl_align. simpl Z.sub. simpl fst.
    assert (Hsumv : cond_Zopp (s <? 0) (Z.pos Ms) + cond_Zopp (p <? 0) (Z.pos Mp)
                    = 0).
    { unfold cond_Zopp.
      destruct (Z.ltb_spec s 0), (Z.ltb_spec p 0); lia. }
    rewrite Hsumv. simpl. f_equal. unfold cond_Zopp in Hsumv.
    destruct (Z.ltb_spec s 0), (Z.ltb_spec p 0); lia.
Qed.

(** *** The points and the score as the handler computes them *)

Lemma awarded_on_window :
  forallb (fun z => bool_decide (awarded (inject_Z z) = Some (500 + 25 * z)))
          (seqZ (-160) 483) = true.
Proof. vm_compute. reflexivity. Qed.

(** For a whole number of seconds from -160 to 322 the handler computes
    the points of the formula, [500 + 25 * timeLeft]. *)
Lemma awarded_whole (z : Z) :
  -160 <= z <= 322 -> awarded (inject_Z z) = Some (500 + 25 * z).
Proof.
  intros Hz.
  pose proof awarded_on_window as Hall.
  rewrite forallb_forall in Hall.
  assert (Hin : In z (seqZ (-160) 483)).
  { apply list_elem_of_In, elem_of_seqZ. lia. }
  apply Hall, bool_decide_eq_true in Hin. exact Hin.
Qed.

(** One step further on either side the rounded quotient moves the product
    across a whole number, and so does the double that [0.12] is read as;
    a [timeLeft] beyond the largest double divided by 25 is worth
    [Infinity]. *)
Remark awarded_rounds :
  awarded 323 = Some 8574 /\ awarded (-161) = Some (-3526) /\
  awarded (12 # 100) = Some 503 /\ awarded (14 # 10) = Some 534 /\
  awarded (inject_Z (10 ^ 307)) = None.
Proof. vm_compute. repeat split; reflexivity. Qed.

(** A sum of safe integers that is a safe integer is the exact sum. *)
Lemma addScore_safe (s pts : Z) :
  - 2 ^ 53 <= s <= 2 ^ 53 -> - 2 ^ 53 <= pts <= 2 ^ 53 ->
  - 2 ^ 53 <= s + pts <= 2 ^ 53 ->
  addScore s pts = Some (s + pts).
Proof. apply plus_exact. Qed.

(** Past the safe range the sum is rounded, and past the largest double it
    is not finite. *)
Remark addScore_rounds :
  addScore (2 ^ 53) 1 = Some (2 ^ 53) /\
  addScore (2 ^ 53 + 2) 1 = Some (2 ^ 53 + 4) /\
  addScore (2 ^ 1023) (2 ^ 1023) = None.
Proof. vm_compute. repeat split; reflexivity. Qed.

Lemma newScore_whole (s z : Z) :
  -160 <= z <= 322 -> - 2 ^ 52 <= s <= 2 ^ 52 ->
  newScore s (inject_Z z) = Some (s + (500 + 25 * z)).
Proof.
  intros Hz Hs. unfold newScore. rewrite (awarded_whole z Hz).
  apply addScore_safe; lia.
Qed.


(** ** Facts about the registry *)

Lemma getGame_app (l1 l2 : GameManager) (p : string) :
  getGame (l1 ++ l2) p =
  match getGame l1 p with Some g => Some g | None => getGame l2 p end.
Proof.
  induction l1 as [|[k g] l1 IH]; simpl; [reflexivity|].
  destruct (decide (k = p)); [reflexivity | exact IH].
Qed.

Lemma getGame_putGame (gm : GameManager) (p p' : string) (g' : Game) :
  getGame (putGame p g' gm) p' =
  match getGame gm p' with
  | Some g => Some (if decide (p = p') then g' else g)
  | None => None
  end.
Proof.
  induction gm as [|[k g] gm IH]; simpl; [reflexivity|].
  destruct (decide (k = p)) as [->|Hkp]; simpl.
  - destruct (decide (p = p')) as [->|Hpp']; [reflexivity|].
    destruct (getGame gm p'); reflexivity.
  - destruct (decide (k = p')) as [->|Hkp'].
    + destruct (decide (p = p')); [congruence | reflexivity].
    + exact IH.
Qed.

Lemma getGame_putGame_eq (gm : GameManager) (p : string) (g g' : Game) :
  getGame gm p = Some g -> getGame (putGame p g' gm) p = Some g'.
Proof.
  intros H. rewrite getGame_putGame, H.
  destruct (decide (p = p)); congruence.
Qed.

Lemma getGame_putGame_ne (gm : GameManager) (p p' : string) (g' : Game) :
  p <> p' -> getGame (putGame p g' gm) p' = getGame gm p'.
Proof.
  intros H. rewrite getGame_putGame.
  destruct (getGame gm p'); [|reflexivity].
  destruct (decide (p = p')); congruence.
Qed.

(** Writing back the object that is already there changes nothing. *)
Lemma putGame_id (gm : GameManager) (p : string) (g : Game) :
  getGame gm p = Some g -> putGame p g gm = gm.
Proof.
  induction gm as [|[k g0] gm IH]; simpl; [reflexivity|].
  destruct (decide (k = p)); intros H.
  - congruence.
  - f_equal. auto.
Qed.

Lemma getGame_deleteGame (gm : GameManager) (p p' : string) :
  getGame (deleteGame p gm) p' =
  if decide (p = p') then None else getGame gm p'.
Proof.
  induction gm as [|[k g] gm IH]; simpl.
  - destruct (decide (p = p')); reflexivity.
  - destruct (decide (k = p)) as [->|Hkp].
    + rewrite IH. destruct (decide (p = p')); [reflexivity|].
      destruct (decide (p = p')); congruence.
    + simpl. destruct (decide (k = p')) as [->|Hkp'].
      * destruct (decide (p = p')); congruence.
      * exact IH.
Qed.

Lemma getGame_entry (gm : GameManager) (p : string) (g : Game) :
  getGame gm p = Some g -> (p, g) ∈ gm.
Proof.
  induction gm as [|[k g0] gm IH]; simpl; [discriminate|].
  destruct (decide (k = p)) as [->|]; intros H.
  - injection H as ->. apply list_elem_of_here.
  - apply list_elem_of_further. auto.
Qed.

Lemma set_answers_id (g : Game) : set_answers (answers g) g = g.
Proof. destruct g; reflexivity. Qed.

(** ** Facts about the player list *)

Lemma hasPlayer_true (sock : string) (ps : list Player) :
  hasPlayer sock ps = true <-> exists pl, pl ∈ ps /\ pid pl = sock.
Proof.
  induction ps as [|p ps IH]; simpl.
  - split; [discriminate|]. intros (pl & Hin & _). inversion Hin.
  - destruct (decide (pid p = sock)) as [Heq|Hne].
    + split; [|reflexivity]. intros _. exists p. split; [left | exact Heq].
    + rewrite IH. split.
      * intros (pl & Hin & Hpl). exists pl. split; [right; exact Hin | exact Hpl].
      * intros (pl & Hin & Hpl).
        apply elem_of_cons in Hin as [->|Hin]; [contradiction|].
        exists pl. split; assumption.
Qed.

Lemma hasPlayer_false (sock : string) (ps : list Player) :
  hasPlayer sock ps = false <-> forall pl, pl ∈ ps -> pid pl <> sock.
Proof.
  rewrite <- not_true_iff_false, hasPlayer_true. split.
  - intros H pl Hin Hpl. apply H. exists pl. split; assumption.
  - intros H (pl & Hin & Hpl). exact (H pl Hin Hpl).
Qed.

Lemma insertDesc_perm (p : Player) (ps : list Player) :
  insertDesc p ps ≡ₚ p :: ps.
Proof.
  induction ps as [|q ps IH]; simpl; [reflexivity|].
  destruct (score q <=? score p); [reflexivity|].
  rewrite IH. apply perm_swap.
Qed.

(** Sorting rearranges the entries and neither adds nor drops one. *)
Lemma sortDesc_perm (ps : list Player) : sortDesc ps ≡ₚ ps.
Proof.
  induction ps as [|p ps IH]; simpl; [reflexivity|].
  rewrite insertDesc_perm, IH. reflexivity.
Qed.

Lemma hasPlayer_sortDesc (sock : string) (ps : list Player) :
  hasPlayer sock (sortDesc ps) = hasPlayer sock ps.
Proof.
  apply eq_true_iff_eq. rewrite !hasPlayer_true.
  split; intros (pl & Hin & Hpl); exists pl; split; try assumption.
  - rewrite <- (sortDesc_perm ps). exact Hin.
  - rewrite (sortDesc_perm ps). exact Hin.
Qed.

Lemma spliceFirst_subseteq (sock : string) (ps : list Player) (pl : Player) :
  pl ∈ spliceFirst sock ps -> pl ∈ ps.
Proof.
  induction ps as [|p ps IH]; simpl; [trivial|].
  destruct (decide (pid p = sock)); intros H.
  - right. exact H.
  - apply elem_of_cons in H as [->|H]; [left | right; auto].
Qed.

(** What [find] and the update of the entry found do to the list: nothing
    when no entry has the id, else the first such entry is replaced. *)
Lemma updateFirst_absent (sock : string) (f : Player -> Player)
    (ps : list Player) :
  hasPlayer sock ps = false -> updateFirst sock f ps = ps.
Proof.
  induction ps as [|p ps IH]; simpl; [reflexivity|].
  destruct (decide (pid p = sock)); [discriminate|].
  intros H. f_equal. auto.
Qed.

Lemma updateFirst_present (sock : string) (f : Player -> Player)
    (ps : list Player) :
  hasPlayer sock ps = true ->
  exists ps1 pl ps2,
    ps = ps1 ++ pl :: ps2 /\ pid pl = sock /\ hasPlayer sock ps1 = false /\
    updateFirst sock f ps = ps1 ++ f pl :: ps2.
Proof.
  induction ps as [|p ps IH]; simpl; [discriminate|].
  destruct (decide (pid p = sock)) as [Heq|Hne]; intros H.
  - exists [], p, ps. repeat split; assumption.
  - destruct (IH H) as (ps1 & pl & ps2 & -> & Hpl & Hno & Hup).
    exists (p :: ps1), pl, ps2. simpl.
    destruct (decide (pid p = sock)); [contradiction|].
    rewrite Hup. repeat split; assumption.
Qed.

Lemma findPlayer_first (sock : string) (ps1 ps2 : list Player)
    (pl : Player) :
  hasPlayer sock ps1 = false -> pid pl = sock ->
  findPlayer sock (ps1 ++ pl :: ps2) = Some pl.
Proof.
  intros Hno Hpl. unfold findPlayer.
  induction ps1 as [|p ps1 IH]; simpl in *.
  - rewrite (bool_decide_eq_true_2 _ Hpl). reflexivity.
  - destruct (decide (pid p = sock)) as [|Hne]; [discriminate|].
    rewrite (bool_decide_eq_false_2 _ Hne). apply IH. exact Hno.
Qed.

Lemma updateFirst_elem (sock : string) (f : Player -> Player)
    (ps : list Player) (pl' : Player) :
  pl' ∈ updateFirst sock f ps ->
  pl' ∈ ps \/ exists pl, pl ∈ ps /\ pid pl = sock /\ pl' = f pl.
Proof.
  induction ps as [|p ps IH]; simpl; [intros H; inversion H|].
  destruct (decide (pid p = sock)) as [Heq|Hne]; intros H.
  - apply elem_of_cons in H as [->|H].
    + right. exists p. repeat split; [left | assumption].
    + left. right. assumption.
  - apply elem_of_cons in H as [->|H].
    + left. left.
    + destruct (IH H) as [Hin|(pl & Hin & Hpl & ->)].
      * left. right. exact Hin.
      * right. exists pl. repeat split; [right; exact Hin | exact Hpl].
Qed.

Lemma hasPlayer_updateFirst (s sock : string) (f : Player -> Player)
    (ps : list Player) :
  (forall pl, pid (f pl) = pid pl) ->
  hasPlayer s (updateFirst sock f ps) = hasPlayer s ps.
Proof.
  intros Hf. induction ps as [|p ps IH]; simpl; [reflexivity|].
  destruct (decide (pid p = sock)); simpl.
  - rewrite Hf. reflexivity.
  - rewrite IH. reflexivity.
Qed.

Lemma hasPlayer_app (s : string) (ps qs : list Player) :
  hasPlayer s (ps ++ qs) = hasPlayer s ps || hasPlayer s qs.
Proof.
  induction ps as [|p ps IH]; simpl; [reflexivity|].
  destruct (decide (pid p = s)); [reflexivity | exact IH].
Qed.

Lemma hasPlayer_spliceFirst_false (s sock : string) (ps : list Player) :
  hasPlayer s ps = false -> hasPlayer s (spliceFirst sock ps) = false.
Proof.
  rewrite !hasPlayer_false. intros H pl Hin.
  apply H. eapply spliceFirst_subseteq. exact Hin.
Qed.

(** ** Answer intake *)

(** A second submission is dropped when the recorded answer is truthy, that
    is, any option index other than 0: nothing is written and nothing is
    sent. *)
Lemma submit_answer_duplicate_ignored (sock p : string) (a a' : Z) (t : Q)
    (gm : GameManager) (g : Game) (q : Question) :
  getGame gm p = Some g ->
  state g = QUESTION ->
  questionAt (questions g) (currentQuestionIndex g) = Some q ->
  recordedAnswer gm p (currentQuestionIndex g) sock = Some a ->
  a <> 0 ->
  handle sock (submit_answer p a' t) gm = ignored gm.
Proof.
  intros Hg Hst Hq Hrec Ha. unfold recordedAnswer in Hrec. rewrite Hg in Hrec.
  simpl. unfold on_submit_answer. rewrite Hg.
  destruct (decide (state g = QUESTION)); [|contradiction].
  rewrite Hq.
  destruct (answers g !! currentQuestionIndex g) as [m|] eqn:Hm;
    [|discriminate].
  rewrite Hm. simpl. rewrite Hrec. simpl.
  destruct (a =? 0) eqn:Hz; [apply Z.eqb_eq in Hz; contradiction|]. simpl.
  rewrite set_answers_id, (putGame_id _ _ _ Hg). reflexivity.
Qed.

(** C1, on the code: the guard against double answering tests the recorded
    answer for truthiness, and option index 0 is falsy.  Ana answers
    question 0 with the correct option 0 and 20 s left, then sends the same
    submission again: the answer 0 is on record after the first one, yet the
    second one is scored as well, so her score is 2000 and her streak 2
    after one question, and the host is notified a second time. *)
Theorem resubmitted_answer_zero_is_scored_again :
  recordedAnswer Scenario.anaOnce Scenario.thePin 0 Scenario.ana = Some 0 /\
  playersOf Scenario.anaOnce Scenario.thePin =
    [mkPlayer Scenario.ana "Ana" 1000 1; mkPlayer Scenario.bo "Bo" 0 0] /\
  playersOf Scenario.anaTwice Scenario.thePin =
    [mkPlayer Scenario.ana "Ana" 2000 2; mkPlayer Scenario.bo "Bo" 0 0] /\
  emitted (handle Scenario.ana (submit_answer Scenario.thePin 0 20)
                  Scenario.anaOnce) =
    [(ToRoom Scenario.host, player_answered Scenario.ana 1)].
Proof. vm_compute. repeat split; reflexivity. Qed.

(** ** Revealing the results *)


(** Without one, the read of [correctIndex] throws after the phase has been
    set, and nothing is sent. *)
Lemma show_results_without_question (p : string) (gm : GameManager)
    (g : Game) :
  getGame gm p = Some g ->
  questionAt (questions g) (currentQuestionIndex g) = None ->
  handle (hostId g) (show_results p) gm =
  mkResult (putGame p (set_state RESULT g) gm) [] TypeError.
Proof.
  intros Hg Hq. simpl. unfold on_show_results. rewrite Hg.
  destruct (decide (hostId g = hostId g)); [|contradiction].
  simpl. rewrite Hq. reflexivity.
Qed.

Lemma questionAt_before_start (qs : list Question) : questionAt qs (-1) = None.
Proof. reflexivity. Qed.

Lemma questionAt_at_end (qs : list Question) :
  questionAt qs (Z.of_nat (length qs)) = None.
Proof.
  unfold questionAt.
  destruct (Z.of_nat (length qs) <? 0) eqn:H; [reflexivity|].
  rewrite Nat2Z.id. apply lookup_ge_None. lia.
Qed.

(** C2, on the code: the host creates a session with two questions and
    sends [show_results] right away, in LOBBY with index -1.  The handler
    sets the phase to RESULT, then [questions[-1]] is [undefined] and the
    read of [correctIndex] throws: no [question_results] is broadcast.  The
    same happens in END, with the index at [questions.length]. *)
Theorem show_results_outside_a_question_throws :
  (state <$> getGame Scenario.created Scenario.thePin = Some LOBBY /\
   handle Scenario.host (show_results Scenario.thePin) Scenario.created =
     mkResult
       [(Scenario.thePin,
         mkGame Scenario.thePin Scenario.host []
                [Scenario.q0; Scenario.q1] (-1) RESULT ∅)]
       [] TypeError) /\
  (state <$> getGame Scenario.ended Scenario.thePin = Some END /\
   currentQuestionIndex <$> getGame Scenario.ended Scenario.thePin = Some 2 /\
   completion (handle Scenario.host (show_results Scenario.thePin)
                      Scenario.ended) = TypeError /\
   emitted (handle Scenario.host (show_results Scenario.thePin)
                   Scenario.ended) = [] /\
   state <$> getGame (gm_after (handle Scenario.host
                                  (show_results Scenario.thePin)
                                  Scenario.ended))
                     Scenario.thePin = Some RESULT).
Proof. vm_compute. repeat split; reflexivity. Qed.

(** ** The leaderboard *)

(** [getLeaderboard] writes nothing but the order of [game.players]. *)
Lemma getLeaderboard_frame (g : Game) :
  let g' := fst (getLeaderboard g) in
  pin g' = pin g /\ hostId g' = hostId g /\ questions g' = questions g /\
  currentQuestionIndex g' = currentQuestionIndex g /\ state g' = state g /\
  answers g' = answers g /\ players g' ≡ₚ players g.
Proof. simpl. repeat split; try reflexivity. apply sortDesc_perm. Qed.

(** C3, on the code: [Array.prototype.sort] sorts [game.players] itself.
    After Bo scored 875 and Ana 0, the players are still in join order, Ana
    then Bo; one call of [getLeaderboard] leaves them as Bo then Ana in the
    session, so the session is not the one before the call. *)
Theorem getLeaderboard_reorders_the_players :
  exists g,
    getGame Scenario.answered Scenario.thePin = Some g /\
    players g =
      [mkPlayer Scenario.ana "Ana" 0 0; mkPlayer Scenario.bo "Bo" 875 1] /\
    snd (getLeaderboard g) =
      [mkPlayer Scenario.bo "Bo" 875 1; mkPlayer Scenario.ana "Ana" 0 0] /\
    players (fst (getLeaderboard g)) =
      [mkPlayer Scenario.bo "Bo" 875 1; mkPlayer Scenario.ana "Ana" 0 0] /\
    fst (getLeaderboard g) <> g.
Proof.
  eexists. split; [vm_compute; reflexivity|].
  split; [reflexivity|]. split; [vm_compute; reflexivity|].
  split; [vm_compute; reflexivity|].
  intros H. apply (f_equal players) in H. vm_compute in H. discriminate.
Qed.

(** ** Starting a quiz without questions *)

(** C10: when the question list is empty, [start_game] from the host still
    sets the phase to QUESTION and the index to 0 and announces the start;
    [sendQuestion] then reads [questions[0]], which is [undefined], hands
    that to the host, and throws on the read of [question.text].  Nothing
    guards the access. *)
Theorem start_game_without_questions (p : string) (gm : GameManager)
    (g : Game) :
  getGame gm p = Some g ->
  questions g = [] ->
  let r := handle (hostId g) (start_game p) gm in
  getGame (gm_after r) p = Some (set_index 0 (set_state QUESTION g)) /\
  questionAt (questions g) 0 = None /\
  emitted r = [(ToRoom p, game_started);
               (ToRoom (hostId g), new_question_host None)] /\
  completion r = TypeError.
Proof.
  intros Hg Hqs. simpl. unfold on_start_game. rewrite Hg.
  destruct (decide (hostId g = hostId g)); [|contradiction].
  unfold sendQuestion. rewrite (getGame_putGame_eq _ _ _ _ Hg).
  simpl. rewrite Hqs. simpl.
  rewrite (getGame_putGame_eq _ _ _ _ Hg). repeat split; reflexivity.
Qed.

Lemma start_game_without_questions_witness :
  getGame (gm_after (handle Scenario.host (start_game Scenario.thePin)
                            Scenario.emptyQuiz))
          Scenario.thePin
    = Some (mkGame Scenario.thePin Scenario.host [] [] 0 QUESTION ∅) /\
  questionAt [] 0 = None /\
  emitted (handle Scenario.host (start_game Scenario.thePin)
                  Scenario.emptyQuiz)
    = [(ToRoom Scenario.thePin, game_started);
       (ToRoom Scenario.host, new_question_host None)] /\
  completion (handle Scenario.host (start_game Scenario.thePin)
                     Scenario.emptyQuiz) = TypeError.
Proof.
  apply (start_game_without_questions Scenario.thePin Scenario.emptyQuiz
           (mkGame Scenario.thePin Scenario.host [] [] (-1) LOBBY ∅));
    reflexivity.
Defined.

(** ** The shape of one step *)

Lemma freshPin_free (gm : GameManager) (draw : string) (redraws : list string)
    (p : string) :
  freshPin gm draw redraws = Some p -> getGame gm p = None.
Proof.
  revert draw. induction redraws as [|d ds IH]; intros draw; simpl;
    unfold has; destruct (getGame gm draw) eqn:Hd; try discriminate.
  - intros [= <-]. exact Hd.
  - apply IH.
  - intros [= <-]. exact Hd.
Qed.

(** What [removePlayer] leaves in the registry: every session found
    afterwards was there before, as it is or with one entry of the socket
    spliced out of its players. *)
Lemma removeScan_lookup (sock : string) (rest seen : GameManager)
    (p : string) (g' : Game) :
  getGame (fst (removeScan sock seen rest)) p = Some g' ->
  exists g, getGame (seen ++ rest) p = Some g /\
            (g' = g \/
             hasPlayer sock (players g) = true /\
             g' = set_players (spliceFirst sock (players g)) g).
Proof.
  revert seen. induction rest as [|[k g0] rest IH]; intros seen; simpl.
  - rewrite app_nil_r. intros H. exists g'. split; [exact H | left; reflexivity].
  - destruct (hasPlayer sock (players g0)) eqn:Hp; simpl.
    + rewrite !getGame_app. destruct (getGame seen p) as [x|].
      * intros [= <-]. exists x. split; [reflexivity | left; reflexivity].
      * simpl. destruct (decide (k = p)).
        -- intros [= <-]. exists g0. split; [reflexivity|].
           right. split; [exact Hp | reflexivity].
        -- intros H. exists g'. split; [exact H | left; reflexivity].
    + destruct (decide (hostId g0 = sock)); simpl.
      * rewrite getGame_deleteGame. destruct (decide (k = p)); [discriminate|].
        intros H. exists g'. split; [exact H | left; reflexivity].
      * intros H. apply IH in H. rewrite <- app_assoc in H. exact H.
Qed.

(** Every session found after an event is either the one that
    [create_game] has just made, or a session that was there before and that
    the event took one [game_step] further. *)
Lemma handle_shape (sock : string) (e : Event) (gm : GameManager)
    (p : string) (g' : Game) :
  getGame (gm_after (handle sock e gm)) p = Some g' ->
  (exists g, getGame gm p = Some g /\ game_step sock p g e g') \/
  (getGame gm p = None /\
   exists qs draw redraws,
     e = create_game qs draw redraws /\
     g' = set_questions qs (newGame p sock)).
Proof.
  assert (Hsame : forall e0, getGame gm p = Some g' ->
            (exists g, getGame gm p = Some g /\ game_step sock p g e0 g') \/
            (getGame gm p = None /\
             exists qs draw redraws,
               e0 = create_game qs draw redraws /\
               g' = set_questions qs (newGame p sock))).
  { intros e0 H. left. exists g'. split; [exact H | constructor]. }
  assert (Hput : forall e0 p1 g1 gnew,
            getGame gm p1 = Some g1 ->
            game_step sock p1 g1 e0 gnew ->
            getGame (putGame p1 gnew gm) p = Some g' ->
            (exists g, getGame gm p = Some g /\ game_step sock p g e0 g') \/
            (getGame gm p = None /\
             exists qs draw redraws,
               e0 = create_game qs draw redraws /\
               g' = set_questions qs (newGame p sock))).
  { intros e0 p1 g1 gnew Hg1 Hstep H. clear Hsame.
    rewrite getGame_putGame in H. left.
    destruct (decide (p1 = p)) as [->|Hne].
    - rewrite Hg1 in H. injection H as <-.
      exists g1. split; [exact Hg1 | exact Hstep].
    - destruct (getGame gm p) as [g|] eqn:Hg; [|discriminate].
      injection H as <-. exists g. split; [reflexivity | constructor]. }
  destruct e as [qs draw redraws|p1|p1|p1|p1 nick|p1 a t| | |]; simpl;
    [| | | | | | |apply Hsame|apply Hsame].
  - (* create_game *)
    unfold on_create_game, createGame.
    destruct (freshPin gm draw redraws) as [p0|] eqn:Hf; simpl;
      [|apply Hsame].
    pose proof (freshPin_free _ _ _ _ Hf) as Hfree.
    assert (Hnew : getGame (gm ++ [(p0, newGame p0 sock)]) p0
                   = Some (newGame p0 sock)).
    { rewrite getGame_app, Hfree. simpl.
      destruct (decide (p0 = p0)); congruence. }
    rewrite Hnew. simpl. rewrite getGame_putGame, getGame_app.
    destruct (decide (p0 = p)) as [->|Hne].
    + rewrite Hfree. simpl. destruct (decide (p = p)); [|contradiction].
      intros [= <-]. right. split; [reflexivity|].
      exists qs, draw, redraws. split; reflexivity.
    + destruct (getGame gm p) as [g|] eqn:Hg.
      * intros [= <-]. left. exists g. split; [reflexivity | constructor].
      * simpl. destruct (decide (p0 = p)); [contradiction | discriminate].
  - (* start_game *)
    unfold on_start_game.
    destruct (getGame gm p1) as [g1|] eqn:Hg1; [|apply Hsame].
    destruct (decide (hostId g1 = sock)) as [Hh|]; [|apply Hsame].
    destruct (sendQuestion _ p1) as [out c]. simpl.
    apply (Hput _ _ _ _ Hg1). constructor. exact Hh.
  - (* next_question *)
    unfold on_next_question.
    destruct (getGame gm p1) as [g1|] eqn:Hg1; [|apply Hsame].
    destruct (decide (hostId g1 = sock)) as [Hh|]; [|apply Hsame].
    simpl.
    destruct (currentQuestionIndex g1 + 1 <? Z.of_nat (length (questions g1)))
      eqn:Hlt.
    + destruct (sendQuestion _ p1) as [out c]. simpl.
      apply (Hput _ _ _ _ Hg1). apply step_next_question; [exact Hh | lia].
    + simpl. apply (Hput _ _ _ _ Hg1). apply step_next_end; [exact Hh | lia].
  - (* show_results *)
    unfold on_show_results.
    destruct (getGame gm p1) as [g1|] eqn:Hg1; [|apply Hsame].
    destruct (decide (hostId g1 = sock)) as [Hh|]; [|apply Hsame].
    simpl. destruct (questionAt (questions g1) (currentQuestionIndex g1))
      as [q|] eqn:Hq; simpl.
    + apply (Hput _ _ _ _ Hg1). apply step_show. exact Hh.
    + apply (Hput _ _ _ _ Hg1). apply step_show_throws; assumption.
  - (* join_game *)
    unfold on_join_game.
    destruct (getGame gm p1) as [g1|] eqn:Hg1; [|apply Hsame].
    destruct (decide (state g1 = LOBBY)) as [Hl|]; [|apply Hsame].
    simpl. unfold addPlayer. rewrite Hg1. simpl.
    apply (Hput _ _ _ _ Hg1). apply step_join. exact Hl.
  - (* submit_answer *)
    unfold on_submit_answer.
    destruct (getGame gm p1) as [g1|] eqn:Hg1; [|apply Hsame].
    destruct (decide (state g1 = QUESTION)) as [Hs|]; [|apply Hsame].
    destruct (questionAt (questions g1) (currentQuestionIndex g1))
      as [q|]; [|apply Hsame].
    destruct (truthy _); simpl.
    + apply (Hput _ _ _ _ Hg1). apply step_submit_dropped. exact Hs.
    + destruct (bool_decide (correctIndex q = a));
        apply (Hput _ _ _ _ Hg1).
      * apply step_submit_correct. exact Hs.
      * apply step_submit_wrong. exact Hs.
  - (* disconnect *)
    unfold on_disconnect, removePlayer.
    intros H.
    assert (H' : getGame (fst (removeScan sock [] gm)) p = Some g').
    { destruct (removeScan sock [] gm) as [gm1 [r|]]; simpl in *;
        [destruct (isHost r)|]; exact H. }
    apply removeScan_lookup in H'. simpl in H'.
    destruct H' as (g & Hg & [->|[Hp ->]]); left; exists g;
      (split; [exact Hg|]); [constructor | apply step_leave; exact Hp].
Qed.

(** ** Scoring a correct answer *)

(** The scoring path: in phase QUESTION, a correct answer from a participant
    whose recorded answer for the current question is absent or falsy is
    put on record, and the first player entry with the socket's id gets the
    score that [score += points] leaves and one more in its streak. *)
Lemma unguarded_correct_answer_scored (sock p : string) (a : Z) (t : Q)
    (gm : GameManager) (g : Game) (q : Question) :
  getGame gm p = Some g ->
  state g = QUESTION ->
  questionAt (questions g) (currentQuestionIndex g) = Some q ->
  correctIndex q = a ->
  truthy (recordedAnswer gm p (currentQuestionIndex g) sock) = false ->
  hasPlayer sock (players g) = true ->
  let r := handle sock (submit_answer p a t) gm in
  (exists ps1 pl ps2,
     players g = ps1 ++ pl :: ps2 /\ pid pl = sock /\
     hasPlayer sock ps1 = false /\
     playersOf (gm_after r) p = ps1 ++ scored t pl :: ps2 /\
     completion r = match newScore (score pl) t with
                    | Some _ => Returned
                    | None => NotFinite
                    end) /\
  recordedAnswer (gm_after r) p (currentQuestionIndex g) sock = Some a.
Proof.
  intros Hg Hst Hq Hcorrect Hrec Hin r. subst r. cbn [handle].
  unfold recordedAnswer in Hrec. rewrite Hg in Hrec.
  unfold on_submit_answer. rewrite Hg.
  destruct (decide (state g = QUESTION)); [|contradiction].
  rewrite Hq. rewrite bool_decide_eq_true_2 by exact Hcorrect.
  set (i := currentQuestionIndex g) in *.
  set (a1 := match answers g !! i with
             | Some _ => answers g
             | None => <[i := ∅]> (answers g)
             end).
  assert (Hfalsy : truthy (default ∅ (a1 !! i) !! sock) = false).
  { subst a1. destruct (answers g !! i) as [m|] eqn:Hm.
    - rewrite Hm. exact Hrec.
    - rewrite lookup_insert_eq. reflexivity. }
  rewrite Hfalsy. cbn [gm_after completion].
  unfold playersOf, recordedAnswer.
  rewrite (getGame_putGame_eq _ _ _ _ Hg). simpl.
  rewrite !lookup_insert_eq.
  destruct (updateFirst_present sock (scored t) _ Hin)
    as (ps1 & pl & ps2 & Hps & Hpl & Hno & Hup).
  split; [|reflexivity].
  exists ps1, pl, ps2. rewrite Hup.
  repeat split; try assumption.
  unfold scoringEnds. rewrite Hps, (findPlayer_first _ _ _ _ Hno Hpl).
  reflexivity.
Qed.

(** In particular a recorded answer 0 does not stop the same participant
    from being scored again for the same question. *)
Lemma recorded_zero_does_not_guard (sock p : string) (a : Z) (t : Q)
    (gm : GameManager) (g : Game) (q : Question) :
  getGame gm p = Some g ->
  state g = QUESTION ->
  questionAt (questions g) (currentQuestionIndex g) = Some q ->
  correctIndex q = a ->
  recordedAnswer gm p (currentQuestionIndex g) sock = Some 0 ->
  hasPlayer sock (players g) = true ->
  exists ps1 pl ps2,
    players g = ps1 ++ pl :: ps2 /\ pid pl = sock /\
    hasPlayer sock ps1 = false /\
    playersOf (gm_after (handle sock (submit_answer p a t) gm)) p =
      ps1 ++ scored t pl :: ps2.
Proof.
  intros Hg Hst Hq Hcorrect Hrec Hin.
  destruct (unguarded_correct_answer_scored sock p a t gm g q)
    as [(ps1 & pl & ps2 & Hps & Hpl & Hno & Hup & _) _]; try assumption.
  - rewrite Hrec. reflexivity.
  - exists ps1, pl, ps2. repeat split; assumption.
Qed.

(** C4 as stated fails: the handler evaluates
    [500 + Math.floor(500 * (timeLeft / 20))] in double precision, and the
    rounded quotient can move the product across a whole number.  In the
    running session Ana has no answer on record and answers question 0
    correctly.  With [timeLeft = 323] she gets 8574 points, where the
    formula gives 8575.  Inside the 20 s window, with [timeLeft = 1.4] she
    gets 534 points, where the formula gives 535 for the number as it is
    written; and with a [timeLeft] of [8646911284551352 / 2^56], which is
    the double that [0.12] is read as, she gets 503 points, where the
    formula gives 502 for that number.  With [timeLeft = 10^307] the
    product overflows: the points are [Infinity], not the whole number of
    the formula. *)
Lemma rounded_quotient_changes_the_points :
  playersOf Scenario.asking Scenario.thePin =
    [mkPlayer Scenario.ana "Ana" 0 0; mkPlayer Scenario.bo "Bo" 0 0] /\
  recordedAnswer Scenario.asking Scenario.thePin 0 Scenario.ana = None /\
  playersOf (gm_after (handle Scenario.ana
                         (submit_answer Scenario.thePin 0 323)
                         Scenario.asking))
            Scenario.thePin =
    [mkPlayer Scenario.ana "Ana" 8574 1; mkPlayer Scenario.bo "Bo" 0 0] /\
  500 + Qfloor (500 * 323 / 20)%Q = 8575 /\
  playersOf (gm_after (handle Scenario.ana
                         (submit_answer Scenario.thePin 0 (14 # 10))
                         Scenario.asking))
            Scenario.thePin =
    [mkPlayer Scenario.ana "Ana" 534 1; mkPlayer Scenario.bo "Bo" 0 0] /\
  500 + Qfloor (500 * (14 # 10) / 20)%Q = 535 /\
  playersOf (gm_after (handle Scenario.ana
                         (submit_answer Scenario.thePin 0
                            (8646911284551352 # 72057594037927936))
                         Scenario.asking))
            Scenario.thePin =
    [mkPlayer Scenario.ana "Ana" 503 1; mkPlayer Scenario.bo "Bo" 0 0] /\
  500 + Qfloor (500 * (8646911284551352 # 72057594037927936) / 20)%Q = 502 /\
  awarded (inject_Z (10 ^ 307)) = None /\
  completion (handle Scenario.ana
                     (submit_answer Scenario.thePin 0 (inject_Z (10 ^ 307)))
                     Scenario.asking) = NotFinite.
Proof. vm_compute. repeat split; reflexivity. Qed.

(** C4, as the code has it: in phase QUESTION, a correct answer from a
    participant who has no answer on record for the current question is
    worth the value of [500 + Math.floor(500 * (timeLeft / 20))] in double
    precision; when that value is finite and score, points and sum are
    safe integers, the points are added to the score of that participant
    (the first entry with the socket's id) and 1 to the streak; the answer
    goes on record.  For a whole number of seconds from -160 to 322 the
    points are those of the formula, [500 + floor(500 * timeLeft / 20)];
    20 s left are worth 1000 points, 0 s 500, 10 s 750 and 15 s 875. *)
Theorem correct_answer_awards_points_in_double_precision (sock p : string)
    (a : Z) (t : Q) (gm : GameManager) (g : Game) (q : Question) :
  getGame gm p = Some g ->
  state g = QUESTION ->
  questionAt (questions g) (currentQuestionIndex g) = Some q ->
  correctIndex q = a ->
  recordedAnswer gm p (currentQuestionIndex g) sock = None ->
  hasPlayer sock (players g) = true ->
  let r := handle sock (submit_answer p a t) gm in
  (exists ps1 pl ps2,
     players g = ps1 ++ pl :: ps2 /\ pid pl = sock /\
     hasPlayer sock ps1 = false /\
     forall pts,
       awarded t = Some pts ->
       - 2 ^ 53 <= score pl <= 2 ^ 53 -> - 2 ^ 53 <= pts <= 2 ^ 53 ->
       - 2 ^ 53 <= score pl + pts <= 2 ^ 53 ->
       playersOf (gm_after r) p =
         ps1 ++ mkPlayer (pid pl) (nickname pl) (score pl + pts)
                         (streak pl + 1) :: ps2 /\
       completion r = Returned) /\
  recordedAnswer (gm_after r) p (currentQuestionIndex g) sock = Some a /\
  (forall z, t = inject_Z z -> -160 <= z <= 322 ->
             awarded t = Some (500 + Qfloor (500 * t / 20)%Q)) /\
  (awarded 20 = Some 1000 /\ awarded 0 = Some 500 /\
   awarded 10 = Some 750 /\ awarded 15 = Some 875).
Proof.
  intros Hg Hst Hq Hcorrect Hrec Hin r.
  assert (Hfalsy :
            truthy (recordedAnswer gm p (currentQuestionIndex g) sock) = false)
    by (rewrite Hrec; reflexivity).
  destruct (unguarded_correct_answer_scored sock p a t gm g q
              Hg Hst Hq Hcorrect Hfalsy Hin)
    as ((ps1 & pl & ps2 & Hps & Hpl & Hno & Hup & Hdone) & Hrecorded).
  fold r in Hup, Hdone, Hrecorded.
  split; [|split; [exact Hrecorded|split]].
  - exists ps1, pl, ps2.
    split; [exact Hps|]. split; [exact Hpl|]. split; [exact Hno|].
    intros pts Hpts Hs Hp Hsum.
    assert (Hnew : newScore (score pl) t = Some (score pl + pts)).
    { unfold newScore. rewrite Hpts. apply addScore_safe; assumption. }
    split.
    + rewrite Hup. unfold scored. rewrite Hnew. reflexivity.
    + rewrite Hdone, Hnew. reflexivity.
  - intros z -> Hz. rewrite (awarded_whole z Hz).
    rewrite <- points_formula, points_integer_25. reflexivity.
  - vm_compute. repeat split; reflexivity.
Qed.

Lemma correct_answer_awards_points_in_double_precision_witness :
  (exists ps1 pl ps2,
     [mkPlayer Scenario.ana "Ana" 0 0; mkPlayer Scenario.bo "Bo" 0 0]
       = ps1 ++ pl :: ps2 /\ pid pl = Scenario.ana /\
     hasPlayer Scenario.ana ps1 = false /\
     forall pts,
       awarded 15 = Some pts ->
       - 2 ^ 53 <= score pl <= 2 ^ 53 -> - 2 ^ 53 <= pts <= 2 ^ 53 ->
       - 2 ^ 53 <= score pl + pts <= 2 ^ 53 ->
       playersOf (gm_after (handle Scenario.ana
                              (submit_answer Scenario.thePin 0 15)
                              Scenario.asking))
                 Scenario.thePin =
         ps1 ++ mkPlayer (pid pl) (nickname pl) (score pl + pts)
                         (streak pl + 1) :: ps2 /\
       completion (handle Scenario.ana (submit_answer Scenario.thePin 0 15)
                          Scenario.asking) = Returned) /\
  recordedAnswer (gm_after (handle Scenario.ana
                              (submit_answer Scenario.thePin 0 15)
                              Scenario.asking))
                 Scenario.thePin 0 Scenario.ana = Some 0 /\
  (forall z, 15%Q = inject_Z z -> -160 <= z <= 322 ->
             awarded 15 = Some (500 + Qfloor (500 * 15 / 20)%Q)) /\
  (awarded 20 = Some 1000 /\ awarded 0 = Some 500 /\
   awarded 10 = Some 750 /\ awarded 15 = Some 875).
Proof.
  refine (correct_answer_awards_points_in_double_precision
            Scenario.ana Scenario.thePin 0 15 Scenario.asking
            (mkGame Scenario.thePin Scenario.host
               [mkPlayer Scenario.ana "Ana" 0 0; mkPlayer Scenario.bo "Bo" 0 0]
               [Scenario.q0; Scenario.q1] 0 QUESTION ∅)
            Scenario.q0 _ _ _ _ _ _);
    reflexivity.
Defined.

(** ** Joining *)

(** A message list that is written out in the handler holds no [error]. *)
Ltac no_error_sent :=
  let H := fresh "H" in
  intros H;
  repeat (apply elem_of_cons in H as [H|H]; [discriminate H|]);
  solve [ apply elem_of_nil in H; contradiction | contradiction ].

Lemma sendQuestion_no_error (gm : GameManager) (p : string) (tgt : Target)
    (msg : string) :
  (tgt, error msg) ∉ fst (sendQuestion gm p).
Proof.
  unfold sendQuestion. destruct (getGame gm p) as [g|]; simpl.
  - destruct (questionAt _ _); simpl; no_error_sent.
  - no_error_sent.
Qed.

(** C9: a [join_game] whose pin names no session, or a session that is not
    in LOBBY, leaves the whole registry as it was and sends one [error] to
    the calling socket; and an [error] message is sent by no other path of
    any handler. *)
Theorem rejected_join_only_reports (sock p nick : string) (gm : GameManager) :
  join_rejected gm p = true ->
  handle sock (join_game p nick) gm =
    mkResult gm [(ToCaller sock, error join_error)] Returned /\
  (forall sock' e gm' tgt msg,
     (tgt, error msg) ∈ emitted (handle sock' e gm') ->
     exists p' nick',
       e = join_game p' nick' /\ join_rejected gm' p' = true /\
       tgt = ToCaller sock' /\ msg = join_error /\
       gm_after (handle sock' e gm') = gm').
Proof.
  intros Hrej. split.
  - unfold join_rejected in Hrej. simpl. unfold on_join_game.
    destruct (getGame gm p) as [g|]; [|reflexivity].
    destruct (decide (state g = LOBBY)) as [Hl|]; [|reflexivity].
    rewrite bool_decide_eq_true_2 in Hrej by exact Hl. discriminate.
  - clear. intros sock e gm tgt msg.
    destruct e as [qs draw redraws|p1|p1|p1|p1 nick|p1 a t| | |]; simpl;
      [| | | | | | |no_error_sent|no_error_sent].
    + unfold on_create_game. destruct (createGame _ _ _ _) as [[gm1 p0]|];
        simpl; [destruct (getGame gm1 p0); simpl|]; no_error_sent.
    + unfold on_start_game. destruct (getGame gm p1) as [g|]; simpl;
        [|no_error_sent].
      destruct (decide _); simpl; [|no_error_sent].
      pose proof (sendQuestion_no_error
                    (putGame p1 (set_index 0 (set_state QUESTION g)) gm)
                    p1 tgt msg) as Hno.
      destruct (sendQuestion _ p1) as [out c]. simpl in *. no_error_sent.
    + unfold on_next_question. destruct (getGame gm p1) as [g|]; simpl;
        [|no_error_sent].
      destruct (decide _); simpl; [|no_error_sent].
      destruct (_ <? _); simpl; [|no_error_sent].
      match goal with
      | |- context [sendQuestion ?m p1] =>
          pose proof (sendQuestion_no_error m p1 tgt msg) as Hno;
          destruct (sendQuestion m p1) as [out c]
      end.
      simpl in *. no_error_sent.
    + unfold on_show_results. destruct (getGame gm p1) as [g|]; simpl;
        [|no_error_sent].
      destruct (decide _); simpl; [|no_error_sent].
      destruct (questionAt _ _); simpl; no_error_sent.
    + unfold on_join_game.
      destruct (getGame gm p1) as [g|] eqn:Hg; simpl.
      * destruct (decide (state g = LOBBY)) as [Hl|Hl]; simpl.
        -- no_error_sent.
        -- intros H. apply list_elem_of_singleton in H. injection H as -> ->.
           exists p1, nick. unfold join_rejected. rewrite Hg.
           rewrite bool_decide_eq_false_2 by exact Hl.
           repeat split; reflexivity.
      * intros H. apply list_elem_of_singleton in H. injection H as -> ->.
        exists p1, nick. unfold join_rejected. rewrite Hg.
        repeat split; reflexivity.
    + unfold on_submit_answer. destruct (getGame gm p1) as [g|]; simpl;
        [|no_error_sent].
      destruct (decide _); simpl; [|no_error_sent].
      destruct (questionAt _ _); simpl; [|no_error_sent].
      destruct (truthy _); simpl; no_error_sent.
    + unfold on_disconnect. destruct (removePlayer gm sock) as [gm1 [r|]];
        simpl; [destruct (isHost r); simpl|]; no_error_sent.
Qed.

Lemma rejected_join_only_reports_witness :
  handle Scenario.bo (join_game Scenario.thePin "Bo") Scenario.asking =
    mkResult Scenario.asking [(ToCaller Scenario.bo, error join_error)]
             Returned /\
  (forall sock' e gm' tgt msg,
     (tgt, error msg) ∈ emitted (handle sock' e gm') ->
     exists p' nick',
       e = join_game p' nick' /\ join_rejected gm' p' = true /\
       tgt = ToCaller sock' /\ msg = join_error /\
       gm_after (handle sock' e gm') = gm').
Proof.
  apply (rejected_join_only_reports Scenario.bo Scenario.thePin "Bo"
           Scenario.asking).
  reflexivity.
Defined.

(** ** Scores *)
















(** A [timeLeft] far above -20 does not raise the score either: with
    [timeLeft = 10^307] the product overflows, the points are [Infinity],
    and so is Ana's score in the code; the handler ends as [NotFinite]. *)
Remark huge_timeLeft_leaves_no_finite_score :
  awarded (inject_Z (10 ^ 307)) = None /\
  completion (handle Scenario.ana
                     (submit_answer Scenario.thePin 0 (inject_Z (10 ^ 307)))
                     Scenario.asking) = NotFinite.
Proof. vm_compute. split; reflexivity. Qed.

(** ** The question index *)

(** An event other than [disconnect] removes no session. *)
Lemma handle_keeps_sessions (sock : string) (e : Event) (gm : GameManager)
    (p : string) (g : Game) :
  is_disconnect e = false ->
  getGame gm p = Some g ->
  exists g', getGame (gm_after (handle sock e gm)) p = Some g'.
Proof.
  intros Hd Hg.
  assert (Hput : forall p1 gnew,
            exists g', getGame (putGame p1 gnew gm) p = Some g').
  { intros p1 gnew. rewrite getGame_putGame, Hg. eauto. }
  destruct e as [qs draw redraws|p1|p1|p1|p1 nick|p1 a t| | |]; simpl;
    [| | | | | |discriminate|eauto|eauto].
  - unfold on_create_game, createGame.
    destruct (freshPin gm draw redraws) as [p0|]; simpl; [|eauto].
    destruct (getGame (gm ++ _) p0); simpl.
    + rewrite getGame_putGame, getGame_app, Hg. eauto.
    + rewrite getGame_app, Hg. eauto.
  - unfold on_start_game. destruct (getGame gm p1) as [g1|]; [|simpl; eauto].
    destruct (decide _); [|simpl; eauto].
    destruct (sendQuestion _ p1). simpl. apply Hput.
  - unfold on_next_question. destruct (getGame gm p1) as [g1|]; [|simpl; eauto].
    destruct (decide _); [|simpl; eauto]. simpl.
    destruct (_ <? _); [destruct (sendQuestion _ p1)|]; simpl; apply Hput.
  - unfold on_show_results. destruct (getGame gm p1) as [g1|]; [|simpl; eauto].
    destruct (decide _); [|simpl; eauto]. simpl.
    destruct (questionAt _ _); simpl; apply Hput.
  - unfold on_join_game. destruct (getGame gm p1) as [g1|] eqn:Hg1;
      [|simpl; eauto].
    destruct (decide _); [|simpl; eauto]. simpl.
    unfold addPlayer. rewrite Hg1. simpl. apply Hput.
  - unfold on_submit_answer. destruct (getGame gm p1) as [g1|]; [|simpl; eauto].
    destruct (decide _); [|simpl; eauto].
    destruct (questionAt _ _); [|simpl; eauto].
    destruct (truthy _); simpl; apply Hput.
Qed.

(** One event does not lower the index of a session, unless it restarts it. *)
Lemma handle_index_le (sock : string) (e : Event) (gm : GameManager)
    (p : string) (g g' : Game) :
  restarts gm sock e = false ->
  getGame gm p = Some g ->
  getGame (gm_after (handle sock e gm)) p = Some g' ->
  currentQuestionIndex g <= currentQuestionIndex g'.
Proof.
  intros Hr Hg Hg'.
  apply handle_shape in Hg' as [(g0 & Hg0 & Hstep)|(Hnone & _)];
    [|congruence].
  rewrite Hg in Hg0. injection Hg0 as <-.
  destruct Hstep; simpl; try lia.
  simpl in Hr. rewrite Hg in Hr.
  rewrite bool_decide_eq_true_2 in Hr by assumption. simpl in Hr. lia.
Qed.

(** C6, as the code has it: a new session has index -1, and along every
    sequence of events without [disconnect] in which no host sends
    [start_game] to a session whose index is already above 0, a session
    stays registered and its index never goes down. *)
Theorem index_never_drops_without_restart (es : list (string * Event))
    (gm : GameManager) (p : string) (g : Game) :
  no_restart gm es = true ->
  getGame gm p = Some g ->
  (forall p0 h, currentQuestionIndex (newGame p0 h) = -1) /\
  exists g', getGame (run es gm) p = Some g' /\
             currentQuestionIndex g <= currentQuestionIndex g'.
Proof.
  intros Hes Hg. split; [reflexivity|].
  revert gm g Hes Hg. induction es as [|[sock e] es IH]; intros gm g Hes Hg.
  - exists g. split; [exact Hg | lia].
  - simpl in Hes. apply andb_prop in Hes as [Hes Hrest].
    apply andb_prop in Hes as [Hr Hd].
    apply negb_true_iff in Hr. apply negb_true_iff in Hd.
    destruct (handle_keeps_sessions sock e gm p g Hd Hg) as [g1 Hg1].
    pose proof (handle_index_le sock e gm p g g1 Hr Hg Hg1) as Hle.
    destruct (IH _ g1 Hrest Hg1) as (g' & Hg' & Hle').
    exists g'. split; [exact Hg' | lia].
Qed.

Lemma index_never_drops_without_restart_witness :
  (forall p0 h, currentQuestionIndex (newGame p0 h) = -1) /\
  exists g',
    getGame (run [(Scenario.host, start_game Scenario.thePin);
                  (Scenario.ana, submit_answer Scenario.thePin 0 15);
                  (Scenario.host, show_results Scenario.thePin);
                  (Scenario.host, next_question Scenario.thePin);
                  (Scenario.host, next_question Scenario.thePin)]
                 Scenario.lobby)
            Scenario.thePin = Some g' /\
    -1 <= currentQuestionIndex g'.
Proof.
  apply (index_never_drops_without_restart
           [(Scenario.host, start_game Scenario.thePin);
            (Scenario.ana, submit_answer Scenario.thePin 0 15);
            (Scenario.host, show_results Scenario.thePin);
            (Scenario.host, next_question Scenario.thePin);
            (Scenario.host, next_question Scenario.thePin)]
           Scenario.lobby Scenario.thePin
           (mkGame Scenario.thePin Scenario.host
              [mkPlayer Scenario.ana "Ana" 0 0; mkPlayer Scenario.bo "Bo" 0 0]
              [Scenario.q0; Scenario.q1] (-1) LOBBY ∅));
    reflexivity.
Defined.

(** C6 as stated fails: [start_game] does not look at the phase.  After the
    host moved on to question 1, a second [start_game] puts the index back
    to 0; and the index does not stop at [questions.length]: with two
    questions, a [next_question] sent in END makes it 3. *)
Lemma restart_lowers_the_index :
  currentQuestionIndex <$>
    getGame (run [(Scenario.host, next_question Scenario.thePin)]
                 Scenario.asking) Scenario.thePin = Some 1 /\
  currentQuestionIndex <$>
    getGame (run [(Scenario.host, next_question Scenario.thePin);
                  (Scenario.host, start_game Scenario.thePin)]
                 Scenario.asking) Scenario.thePin = Some 0 /\
  currentQuestionIndex <$>
    getGame (run [(Scenario.host, next_question Scenario.thePin);
                  (Scenario.host, next_question Scenario.thePin);
                  (Scenario.host, next_question Scenario.thePin)]
                 Scenario.asking) Scenario.thePin = Some 3.
Proof. vm_compute. repeat split; reflexivity. Qed.

(** ** The host and the players *)

Lemma host_outside_check (gm : GameManager) :
  host_outside_b gm = true -> host_outside gm.
Proof.
  unfold host_outside_b. rewrite forallb_forall.
  intros H p g Hg.
  apply getGame_entry, list_elem_of_In, H in Hg. simpl in Hg.
  apply negb_true_iff in Hg. exact Hg.
Qed.

(** One event keeps the host out of the players of every session, unless it
    is the host's own join. *)
Lemma handle_host_outside (sock : string) (e : Event) (gm : GameManager) :
  host_outside gm ->
  host_joins gm sock e = false ->
  host_outside (gm_after (handle sock e gm)).
Proof.
  intros Hinv Hj p g' Hg'.
  apply handle_shape in Hg' as [(g & Hg & Hstep)|(_ & qs & d & ds & _ & ->)];
    [|reflexivity].
  specialize (Hinv p g Hg).
  destruct Hstep; simpl; try exact Hinv.
  - rewrite hasPlayer_sortDesc. exact Hinv.
  - rewrite hasPlayer_sortDesc. exact Hinv.
  - rewrite hasPlayer_app, Hinv. simpl.
    simpl in Hj. rewrite Hg in Hj. apply bool_decide_eq_false in Hj.
    destruct (decide (sock = hostId g)); [congruence | reflexivity].
  - rewrite hasPlayer_updateFirst; [exact Hinv | reflexivity].
  - rewrite hasPlayer_updateFirst; [exact Hinv | reflexivity].
  - apply hasPlayer_spliceFirst_false. exact Hinv.
Qed.

(** C7, as the code has it: [join_game] does not compare the joining socket
    with the host.  Along every sequence of events in which no host sends
    [join_game] for its own session, no session ever lists its host among
    its players; this holds from the empty registry, and from any registry
    of which it is true. *)
Theorem host_stays_outside_unless_it_joins (es : list (string * Event))
    (gm : GameManager) :
  host_outside gm ->
  no_host_join gm es = true ->
  host_outside (run es gm).
Proof.
  revert gm. induction es as [|[sock e] es IH]; intros gm Hinv Hes.
  - exact Hinv.
  - simpl in Hes. apply andb_prop in Hes as [Hj Hrest].
    apply negb_true_iff in Hj. simpl. apply IH; [|exact Hrest].
    apply handle_host_outside; assumption.
Qed.

Lemma host_stays_outside_unless_it_joins_witness :
  host_outside
    (run [(Scenario.host,
           create_game [Scenario.q0; Scenario.q1] Scenario.thePin []);
          (Scenario.ana, join_game Scenario.thePin "Ana");
          (Scenario.bo, join_game Scenario.thePin "Bo");
          (Scenario.host, start_game Scenario.thePin);
          (Scenario.ana, submit_answer Scenario.thePin 0 15);
          (Scenario.host, show_results Scenario.thePin);
          (Scenario.bo, disconnect)]
         []).
Proof.
  apply (host_stays_outside_unless_it_joins
           [(Scenario.host,
             create_game [Scenario.q0; Scenario.q1] Scenario.thePin []);
            (Scenario.ana, join_game Scenario.thePin "Ana");
            (Scenario.bo, join_game Scenario.thePin "Bo");
            (Scenario.host, start_game Scenario.thePin);
            (Scenario.ana, submit_answer Scenario.thePin 0 15);
            (Scenario.host, show_results Scenario.thePin);
            (Scenario.bo, disconnect)]
           []).
  - apply host_outside_check. reflexivity.
  - vm_compute. reflexivity.
Defined.

(** C7 as stated fails: the host sends [join_game] for the session it has
    just created, the session is in LOBBY, and the host is pushed onto its
    players. *)
Lemma host_can_join_its_own_session :
  hostId <$> getGame Scenario.hostJoined Scenario.thePin
    = Some Scenario.host /\
  playersOf Scenario.hostJoined Scenario.thePin
    = [mkPlayer Scenario.host "Host" 0 0] /\
  emitted (handle Scenario.host (join_game Scenario.thePin "Host")
                  Scenario.created)
    = [(ToRoom Scenario.thePin,
        player_joined [mkPlayer Scenario.host "Host" 0 0]);
       (ToCaller Scenario.host, joined_success Scenario.thePin "Host")].
Proof. vm_compute. repeat split; reflexivity. Qed.

(** ** The host leaves *)

(** The scan passes the sessions in which the socket has no part and stops
    at the first session it hosts without being one of its players. *)
Lemma removeScan_host (sock X : string) (g : Game)
    (before after seen : GameManager) :
  hostId g = sock ->
  hasPlayer sock (players g) = false ->
  (forall p g0, (p, g0) ∈ before ->
                hasPlayer sock (players g0) = false /\ hostId g0 <> sock) ->
  removeScan sock seen (before ++ (X, g) :: after) =
  (deleteGame X (seen ++ before ++ (X, g) :: after),
   Some (mkRemoval X g true)).
Proof.
  intros Hh Hp. revert seen.
  induction before as [|[k g0] before IH]; intros seen Hbefore; simpl.
  - rewrite Hp. destruct (decide (hostId g = sock)); [reflexivity|contradiction].
  - destruct (Hbefore k g0) as [Hp0 Hh0]; [left|].
    rewrite Hp0. destruct (decide (hostId g0 = sock)); [contradiction|].
    rewrite IH.
    + rewrite <- app_assoc. reflexivity.
    + intros p g1 Hin. apply (Hbefore p g1). right. exact Hin.
Qed.

(** C8, as the code has it: [removePlayer] looks for the socket among the
    players of a session before it compares it with the host, and returns
    at the first session in which it finds either.  When the host of
    session X is a player of no session, X included, and hosts no session
    registered before X, its disconnect deletes X: the removal carries
    [isHost], a lookup of X finds nothing, and the room is told
    [host_disconnected]. *)
Theorem host_disconnect_deletes_session (sock X : string) (g : Game)
    (before after : GameManager) :
  hostId g = sock ->
  (forall p g0, (p, g0) ∈ before ++ (X, g) :: after ->
                hasPlayer sock (players g0) = false) ->
  (forall p g0, (p, g0) ∈ before -> hostId g0 <> sock) ->
  let gm := before ++ (X, g) :: after in
  let r := handle sock disconnect gm in
  snd (removePlayer gm sock) = Some (mkRemoval X g true) /\
  getGame (gm_after r) X = None /\
  emitted r = [(ToRoom X, host_disconnected)] /\
  completion r = Returned.
Proof.
  intros Hh Hplayers Hhosts gm r. subst r gm. simpl.
  unfold on_disconnect, removePlayer.
  rewrite (removeScan_host sock X g before after [] Hh).
  - simpl. rewrite getGame_deleteGame.
    destruct (decide (X = X)); [|contradiction]. repeat split; reflexivity.
  - apply (Hplayers X g). apply elem_of_app. right. left.
  - intros p g0 Hin. split.
    + apply (Hplayers p g0). apply elem_of_app. left. exact Hin.
    + apply (Hhosts p g0 Hin).
Qed.

Lemma host_disconnect_deletes_session_witness :
  snd (removePlayer Scenario.asking Scenario.host) =
    Some (mkRemoval Scenario.thePin
            (mkGame Scenario.thePin Scenario.host
               [mkPlayer Scenario.ana "Ana" 0 0; mkPlayer Scenario.bo "Bo" 0 0]
               [Scenario.q0; Scenario.q1] 0 QUESTION ∅)
            true) /\
  getGame (gm_after (handle Scenario.host disconnect Scenario.asking))
          Scenario.thePin = None /\
  emitted (handle Scenario.host disconnect Scenario.asking)
    = [(ToRoom Scenario.thePin, host_disconnected)] /\
  completion (handle Scenario.host disconnect Scenario.asking) = Returned.
Proof.
  apply (host_disconnect_deletes_session Scenario.host Scenario.thePin
           (mkGame Scenario.thePin Scenario.host
              [mkPlayer Scenario.ana "Ana" 0 0; mkPlayer Scenario.bo "Bo" 0 0]
              [Scenario.q0; Scenario.q1] 0 QUESTION ∅)
           [] []).
  - reflexivity.
  - intros p g0 Hin. apply list_elem_of_singleton in Hin.
    injection Hin as _ ->. reflexivity.
  - intros p g0 Hin. apply elem_of_nil in Hin. contradiction Hin.
Defined.

(** C8 as stated fails in two ways.  A host that joined its own session is
    found among the players first: its disconnect only takes it off the
    player list, the session stays registered and the removal carries no
    [isHost].  And a socket that hosts two sessions, and is a player of
    none, loses only the one registered first: the session with pin 111111
    is still found after the disconnect. *)
Lemma host_disconnect_can_leave_the_session :
  (hostId <$> getGame Scenario.hostJoined Scenario.thePin
     = Some Scenario.host /\
   isHost <$> snd (removePlayer Scenario.hostJoined Scenario.host)
     = Some false /\
   hostId <$> getGame (gm_after (handle Scenario.host disconnect
                                        Scenario.hostJoined))
                      Scenario.thePin = Some Scenario.host /\
   emitted (handle Scenario.host disconnect Scenario.hostJoined)
     = [(ToRoom Scenario.thePin, player_left [])]) /\
  (hostId <$> getGame Scenario.twoSessions Scenario.otherPin
     = Some Scenario.host /\
   forallb (fun kg => negb (hasPlayer Scenario.host (players (snd kg))))
           Scenario.twoSessions = true /\
   r_pin <$> snd (removePlayer Scenario.twoSessions Scenario.host)
     = Some Scenario.thePin /\
   hostId <$> getGame (gm_after (handle Scenario.host disconnect
                                        Scenario.twoSessions))
                      Scenario.otherPin = Some Scenario.host).
Proof. vm_compute. repeat split; reflexivity. Qed.

(** * Further properties of the code *)

(** ** The scoring expression *)

Lemma points64_exact_witness :
  Binary64.points64 17 = Some (points (inject_Z 17)).
Proof. apply (points64_exact 17). lia. Defined.

(** ** The leaderboard *)








(** ** Creating a session *)

Lemma getGame_None (gm : GameManager) (p : string) :
  getGame gm p = None <-> p ∉ map fst gm.
Proof.
  induction gm as [|[k g] gm IH]; simpl.
  - split; [intros _ H; inversion H | reflexivity].
  - rewrite not_elem_of_cons. destruct (decide (k = p)) as [->|Hne].
    + split; [discriminate | intros [H _]; contradiction].
    + rewrite IH. split; [intros H; split; [congruence | exact H] | tauto].
Qed.

Lemma has_true (gm : GameManager) (p : string) :
  has gm p = true <-> p ∈ map fst gm.
Proof.
  unfold has. destruct (getGame gm p) eqn:H.
  - split; [intros _ | reflexivity].
    destruct (decide (p ∈ map fst gm)) as [Hin|Hout]; [exact Hin|].
    apply getGame_None in Hout. congruence.
  - split; [discriminate|]. intros Hin. apply getGame_None in H. contradiction.
Qed.

(** The loop returns the first draw that is not in use. *)
Lemma freshPin_first_free (gm : GameManager) (redraws : list string)
    (draw p : string) :
  freshPin gm draw redraws = Some p <->
  exists taken rest,
    draw :: redraws = taken ++ p :: rest /\
    Forall (fun d => has gm d = true) taken /\ has gm p = false.
Proof.
  revert draw. induction redraws as [|d ds IH]; intros draw; simpl.
  - destruct (has gm draw) eqn:Hd; split.
    + discriminate.
    + intros (taken & rest & Heq & Htaken & Hp).
      destruct taken as [|t taken]; simpl in Heq; injection Heq as -> Heq.
      * congruence.
      * destruct taken; discriminate Heq.
    + intros [= <-]. exists [], []. repeat split; [constructor | exact Hd].
    + intros (taken & rest & Heq & Htaken & Hp).
      destruct taken as [|t taken]; simpl in Heq; injection Heq as -> Heq.
      * reflexivity.
      * destruct taken; discriminate Heq.
  - destruct (has gm draw) eqn:Hd.
    + rewrite IH. split.
      * intros (taken & rest & Heq & Htaken & Hp).
        exists (draw :: taken), rest. rewrite Heq.
        repeat split; [constructor; assumption | exact Hp].
      * intros (taken & rest & Heq & Htaken & Hp).
        destruct taken as [|t taken]; simpl in Heq; injection Heq as -> Heq.
        -- congruence.
        -- apply Forall_cons in Htaken as [_ Htaken].
           exists taken, rest. repeat split; assumption.
    + split.
      * intros [= <-]. exists [], (d :: ds).
        repeat split; [constructor | exact Hd].
      * intros (taken & rest & Heq & Htaken & Hp).
        destruct taken as [|t taken]; simpl in Heq; injection Heq as -> Heq.
        -- reflexivity.
        -- apply Forall_cons in Htaken as [Ht _]. congruence.
Qed.

(** [createGame] registers a new session under the first draw that is not
    in use: the pin was free, a lookup now finds the new session (LOBBY, no
    players, no questions, index -1, the caller as host), and every other
    lookup gives what it gave before. *)
Theorem createGame_registers_first_free_pin (gm gm' : GameManager)
    (hostSocketId draw p : string) (redraws : list string) :
  createGame gm hostSocketId draw redraws = Some (gm', p) ->
  (exists taken rest,
     draw :: redraws = taken ++ p :: rest /\
     Forall (fun d => is_Some (getGame gm d)) taken) /\
  getGame gm p = None /\
  getGame gm' p = Some (mkGame p hostSocketId [] [] (-1) LOBBY ∅) /\
  forall p', p' <> p -> getGame gm' p' = getGame gm p'.
Proof.
  unfold createGame. destruct (freshPin gm draw redraws) as [p0|] eqn:Hf;
    [|discriminate].
  intros [= <- <-].
  pose proof (freshPin_free _ _ _ _ Hf) as Hfree.
  apply freshPin_first_free in Hf as (taken & rest & Heq & Htaken & _).
  split; [|split; [exact Hfree | split]].
  - exists taken, rest. split; [exact Heq|].
    eapply Forall_impl; [exact Htaken|]. simpl. intros d Hd.
    unfold has in Hd. destruct (getGame gm d); [eauto | discriminate].
  - rewrite getGame_app, Hfree. simpl.
    destruct (decide (p0 = p0)); [reflexivity | contradiction].
  - intros p' Hne. rewrite getGame_app.
    destruct (getGame gm p'); [reflexivity|]. simpl.
    destruct (decide (p0 = p')); [congruence | reflexivity].
Qed.

Lemma createGame_registers_first_free_pin_witness :
  (exists taken rest,
     [Scenario.thePin; Scenario.thePin; Scenario.otherPin]
       = taken ++ Scenario.otherPin :: rest /\
     Forall (fun d => is_Some (getGame Scenario.lobby d)) taken) /\
  getGame Scenario.lobby Scenario.otherPin = None /\
  getGame (Scenario.lobby ++
           [(Scenario.otherPin, newGame Scenario.otherPin Scenario.ana)])
          Scenario.otherPin
    = Some (mkGame Scenario.otherPin Scenario.ana [] [] (-1) LOBBY ∅) /\
  forall p', p' <> Scenario.otherPin ->
    getGame (Scenario.lobby ++
             [(Scenario.otherPin, newGame Scenario.otherPin Scenario.ana)]) p'
    = getGame Scenario.lobby p'.
Proof.
  apply (createGame_registers_first_free_pin Scenario.lobby
           (Scenario.lobby ++
            [(Scenario.otherPin, newGame Scenario.otherPin Scenario.ana)])
           Scenario.ana
           Scenario.thePin Scenario.otherPin
           [Scenario.thePin; Scenario.otherPin]).
  reflexivity.
Defined.

(** [createGame] finds no pin exactly when every draw it is given is in
    use; the registry is then left alone. *)
Theorem createGame_fails_only_when_all_draws_taken (gm : GameManager)
    (hostSocketId draw : string) (redraws : list string) :
  createGame gm hostSocketId draw redraws = None <->
  Forall (fun d => is_Some (getGame gm d)) (draw :: redraws).
Proof.
  unfold createGame.
  assert (Hhas : forall d, has gm d = true <-> is_Some (getGame gm d)).
  { intros d. unfold has. destruct (getGame gm d); split;
      try discriminate; eauto. intros [x Hx]. discriminate. }
  revert draw. induction redraws as [|d ds IH]; intros draw; simpl.
  - rewrite Forall_singleton, <- Hhas.
    destruct (has gm draw); split; try discriminate; reflexivity.
  - rewrite Forall_cons, <- Hhas. destruct (has gm draw) eqn:Hd.
    + rewrite IH. tauto.
    + split; [discriminate | intros [H _]; discriminate].
Qed.

(** ** How one event changes the registry *)

Lemma putGame_app_fresh (l1 l2 : GameManager) (p : string) (g' : Game) :
  getGame l1 p = None -> putGame p g' (l1 ++ l2) = l1 ++ putGame p g' l2.
Proof.
  induction l1 as [|[k g] l1 IH]; simpl; [reflexivity|].
  destruct (decide (k = p)); [discriminate|].
  intros H. f_equal. auto.
Qed.

Lemma putGame_keys (p : string) (g' : Game) (gm : GameManager) :
  map fst (putGame p g' gm) = map fst gm.
Proof.
  induction gm as [|[k g] gm IH]; simpl; [reflexivity|].
  destruct (decide (k = p)); simpl; [reflexivity | f_equal; exact IH].
Qed.

Lemma putGame_Forall (P : string * Game -> Prop) (p : string) (g' : Game)
    (gm : GameManager) :
  Forall P gm -> P (p, g') -> Forall P (putGame p g' gm).
Proof.
  intros Hall Hp. induction gm as [|[k g] gm IH]; simpl; [constructor|].
  apply Forall_cons in Hall as [Hk Hall].
  destruct (decide (k = p)) as [->|].
  - constructor; assumption.
  - constructor; [exact Hk | auto].
Qed.

Lemma deleteGame_keys (p : string) (gm : GameManager) :
  map fst (deleteGame p gm) = filter (fun k => k <> p) (map fst gm).
Proof.
  induction gm as [|[k g] gm IH]; simpl; [reflexivity|].
  rewrite filter_cons. simpl.
  destruct (decide (k = p)), (decide (k <> p)); try contradiction;
    simpl; rewrite IH; reflexivity.
Qed.

Lemma deleteGame_Forall (P : string * Game -> Prop) (p : string)
    (gm : GameManager) :
  Forall P gm -> Forall P (deleteGame p gm).
Proof.
  intros Hall. induction gm as [|[k g] gm IH]; simpl; [constructor|].
  apply Forall_cons in Hall as [Hk Hall].
  destruct (decide (k = p)); [auto | constructor; auto].
Qed.

(** A [game_step] never touches the pin, the host or the questions. *)
Lemma game_step_fixed (sock p : string) (g g' : Game) (e : Event) :
  game_step sock p g e g' ->
  pin g' = pin g /\ hostId g' = hostId g /\ questions g' = questions g.
Proof. intros H. destruct H; repeat split; reflexivity. Qed.

(** The registry that [removePlayer] leaves: the one before; or the one
    before with the socket spliced out of the players of one session; or
    the one before without a session that the socket hosts. *)
Lemma removeScan_registry (sock : string) (rest seen : GameManager) :
  let gm' := fst (removeScan sock seen rest) in
  (gm' = seen ++ rest /\ snd (removeScan sock seen rest) = None) \/
  (exists l1 k g l2,
     seen ++ rest = l1 ++ (k, g) :: l2 /\
     hasPlayer sock (players g) = true /\
     gm' = l1 ++ (k, set_players (spliceFirst sock (players g)) g) :: l2 /\
     snd (removeScan sock seen rest) =
       Some (mkRemoval k (set_players (spliceFirst sock (players g)) g)
                       false)) \/
  (exists k g,
     (k, g) ∈ seen ++ rest /\ hostId g = sock /\
     gm' = deleteGame k (seen ++ rest) /\
     snd (removeScan sock seen rest) = Some (mkRemoval k g true)).
Proof.
  revert seen. induction rest as [|[k g] rest IH]; intros seen; simpl.
  - left. rewrite app_nil_r. split; reflexivity.
  - destruct (hasPlayer sock (players g)) eqn:Hp; simpl.
    + right. left. exists seen, k, g, rest. repeat split; assumption.
    + destruct (decide (hostId g = sock)) as [Hh|Hh]; simpl.
      * right. right. exists k, g. repeat split; [|exact Hh].
        apply elem_of_app. right. left.
      * specialize (IH (seen ++ [(k, g)])). simpl in IH.
        rewrite <- !app_assoc in IH. simpl in IH. exact IH.
Qed.

(** The registry after an event: unchanged; or one session taken one
    [game_step] further; or one new session appended by [create_game]; or
    one session deleted by the disconnect of its host. *)
Lemma handle_registry (sock : string) (e : Event) (gm : GameManager) :
  let gm' := gm_after (handle sock e gm) in
  gm' = gm \/
  (exists p g g',
     getGame gm p = Some g /\ game_step sock p g e g' /\
     gm' = putGame p g' gm) \/
  (exists p qs draw redraws,
     e = create_game qs draw redraws /\ getGame gm p = None /\
     gm' = gm ++ [(p, set_questions qs (newGame p sock))]) \/
  (exists l1 k g l2,
     e = disconnect /\ gm = l1 ++ (k, g) :: l2 /\
     hasPlayer sock (players g) = true /\
     gm' = l1 ++ (k, set_players (spliceFirst sock (players g)) g) :: l2) \/
  (exists k g,
     e = disconnect /\ (k, g) ∈ gm /\ hostId g = sock /\
     gm' = deleteGame k gm).
Proof.
  assert (Hput : forall p g g' gm1,
            getGame gm p = Some g -> game_step sock p g e g' ->
            gm1 = putGame p g' gm ->
            gm1 = gm \/
            (exists p g g',
               getGame gm p = Some g /\ game_step sock p g e g' /\
               gm1 = putGame p g' gm) \/
            (exists p qs draw redraws,
               e = create_game qs draw redraws /\ getGame gm p = None /\
               gm1 = gm ++ [(p, set_questions qs (newGame p sock))]) \/
            (exists l1 k g l2,
               e = disconnect /\ gm = l1 ++ (k, g) :: l2 /\
               hasPlayer sock (players g) = true /\
               gm1 = l1 ++ (k, set_players (spliceFirst sock (players g)) g)
                        :: l2) \/
            (exists k g,
               e = disconnect /\ (k, g) ∈ gm /\ hostId g = sock /\
               gm1 = deleteGame k gm)).
  { intros p g g' gm1 Hg Hs ->. right. left. exists p, g, g'. auto. }
  destruct e as [qs draw redraws|p1|p1|p1|p1 nick|p1 a t| | |]; simpl;
    [| | | | | | |left; reflexivity|left; reflexivity].
  - unfold on_create_game, createGame.
    destruct (freshPin gm draw redraws) as [p0|] eqn:Hf; simpl;
      [|left; reflexivity].
    pose proof (freshPin_free _ _ _ _ Hf) as Hfree.
    assert (Hnew : getGame (gm ++ [(p0, newGame p0 sock)]) p0
                   = Some (newGame p0 sock)).
    { rewrite getGame_app, Hfree. simpl.
      destruct (decide (p0 = p0)); congruence. }
    rewrite Hnew. simpl. right. right. left.
    exists p0, qs, draw, redraws. repeat split; [exact Hfree|].
    rewrite (putGame_app_fresh _ _ _ _ Hfree). simpl.
    destruct (decide (p0 = p0)); [reflexivity | contradiction].
  - unfold on_start_game.
    destruct (getGame gm p1) as [g1|] eqn:Hg1; [|left; reflexivity].
    destruct (decide (hostId g1 = sock)) as [Hh|]; [|left; reflexivity].
    destruct (sendQuestion _ p1) as [out c]. simpl.
    eapply Hput; [exact Hg1 | | reflexivity]. constructor. exact Hh.
  - unfold on_next_question.
    destruct (getGame gm p1) as [g1|] eqn:Hg1; [|left; reflexivity].
    destruct (decide (hostId g1 = sock)) as [Hh|]; [|left; reflexivity].
    simpl.
    destruct (currentQuestionIndex g1 + 1 <? Z.of_nat (length (questions g1)))
      eqn:Hlt.
    + destruct (sendQuestion _ p1) as [out c]. simpl.
      eapply Hput; [exact Hg1 | | reflexivity].
      apply step_next_question; [exact Hh | lia].
    + simpl. eapply Hput; [exact Hg1 | | reflexivity].
      apply step_next_end; [exact Hh | lia].
  - unfold on_show_results.
    destruct (getGame gm p1) as [g1|] eqn:Hg1; [|left; reflexivity].
    destruct (decide (hostId g1 = sock)) as [Hh|]; [|left; reflexivity].
    simpl. destruct (questionAt (questions g1) (currentQuestionIndex g1))
      as [q|] eqn:Hq; simpl.
    + eapply Hput; [exact Hg1 | | reflexivity]. apply step_show. exact Hh.
    + eapply Hput; [exact Hg1 | | reflexivity].
      apply step_show_throws; assumption.
  - unfold on_join_game.
    destruct (getGame gm p1) as [g1|] eqn:Hg1; [|left; reflexivity].
    destruct (decide (state g1 = LOBBY)) as [Hl|]; [|left; reflexivity].
    simpl. unfold addPlayer. rewrite Hg1. simpl.
    eapply Hput; [exact Hg1 | | reflexivity]. apply step_join. exact Hl.
  - unfold on_submit_answer.
    destruct (getGame gm p1) as [g1|] eqn:Hg1; [|left; reflexivity].
    destruct (decide (state g1 = QUESTION)) as [Hs|]; [|left; reflexivity].
    destruct (questionAt (questions g1) (currentQuestionIndex g1))
      as [q|]; [|left; reflexivity].
    destruct (truthy _); simpl.
    + eapply Hput; [exact Hg1 | | reflexivity].
      apply step_submit_dropped. exact Hs.
    + destruct (bool_decide (correctIndex q = a));
        (eapply Hput; [exact Hg1 | | reflexivity]).
      * apply step_submit_correct. exact Hs.
      * apply step_submit_wrong. exact Hs.
  - unfold on_disconnect, removePlayer.
    pose proof (removeScan_registry sock gm []) as Hscan. simpl in Hscan.
    destruct (removeScan sock [] gm) as [gm1 r]. simpl in Hscan.
    assert (Hafter : gm_after
              match r with
              | Some r0 =>
                  if isHost r0
                  then mkResult gm1 [(ToRoom (r_pin r0), host_disconnected)]
                                Returned
                  else mkResult gm1
                         [(ToRoom (r_pin r0), player_left (players (r_game r0)))]
                         Returned
              | None => mkResult gm1 [] Returned
              end = gm1).
    { destruct r as [r0|]; [destruct (isHost r0)|]; reflexivity. }
    rewrite Hafter.
    destruct Hscan as [[-> _]|[(l1 & k & g & l2 & Heq & Hp & -> & _)
                              |(k & g & Hin & Hh & -> & _)]].
    + left. reflexivity.
    + right. right. right. left. exists l1, k, g, l2. auto.
    + right. right. right. right. exists k, g. auto.
Qed.

(** ** The registry stays a map *)

Lemma handle_well_formed (sock : string) (e : Event) (gm : GameManager) :
  well_formed gm -> well_formed (gm_after (handle sock e gm)).
Proof.
  intros [Hnd Hpins].
  destruct (handle_registry sock e gm)
    as [->|[(p & g & g' & Hg & Hstep & ->)
           |[(p & qs & d & ds & _ & Hfree & ->)
            |[(l1 & k & g & l2 & _ & -> & _ & ->)
             |(k & g & _ & _ & _ & ->)]]]].
  - split; assumption.
  - split; [rewrite putGame_keys; exact Hnd|].
    apply putGame_Forall; [exact Hpins|]. simpl.
    destruct (game_step_fixed _ _ _ _ _ Hstep) as [-> _].
    apply getGame_entry in Hg. rewrite Forall_forall in Hpins.
    apply (Hpins (p, g) Hg).
  - split.
    + rewrite map_app. simpl. apply NoDup_app. split; [exact Hnd|].
      split; [|apply NoDup_singleton].
      intros x Hx Hx'. apply list_elem_of_singleton in Hx' as ->.
      apply getGame_None in Hfree. contradiction.
    + apply Forall_app. split; [exact Hpins|].
      constructor; [reflexivity | constructor].
  - split; [rewrite map_app in *; simpl in *; exact Hnd|].
    apply Forall_app in Hpins as [H1 H2].
    apply Forall_cons in H2 as [Hk H2].
    apply Forall_app. split; [exact H1|]. constructor; assumption.
  - split.
    + rewrite deleteGame_keys. apply NoDup_filter. exact Hnd.
    + apply deleteGame_Forall. exact Hpins.
Qed.

(** Along every sequence of events no pin is ever registered twice, and
    every session object carries the pin it is registered under: the
    session a lookup finds is the only one with that pin. *)
Theorem registry_stays_a_map (es : list (string * Event)) (gm : GameManager) :
  well_formed gm -> well_formed (run es gm).
Proof.
  revert gm. induction es as [|[sock e] es IH]; intros gm Hwf; simpl.
  - exact Hwf.
  - apply IH. apply handle_well_formed. exact Hwf.
Qed.

Lemma registry_stays_a_map_witness :
  well_formed
    (run [(Scenario.host,
           create_game [Scenario.q0; Scenario.q1] Scenario.thePin []);
          (Scenario.ana,
           create_game [Scenario.q0] Scenario.thePin [Scenario.otherPin]);
          (Scenario.bo, join_game Scenario.thePin "Bo");
          (Scenario.host, disconnect)]
         []).
Proof.
  apply (registry_stays_a_map
           [(Scenario.host,
             create_game [Scenario.q0; Scenario.q1] Scenario.thePin []);
            (Scenario.ana,
             create_game [Scenario.q0] Scenario.thePin [Scenario.otherPin]);
            (Scenario.bo, join_game Scenario.thePin "Bo");
            (Scenario.host, disconnect)]
           []).
  split; constructor.
Defined.

(** ** Sessions do not interfere *)

Lemma game_step_addressed (sock p : string) (g g' : Game) (e : Event) :
  game_step sock p g e g' ->
  g' = g \/ addressed e = Some p \/ e = disconnect.
Proof. intros H. destruct H; auto. Qed.

(** An event that names a pin, and [create_game], leave every session
    registered under another pin exactly as it was. *)
Theorem other_sessions_untouched (sock : string) (e : Event)
    (gm : GameManager) (p : string) (g : Game) :
  e <> disconnect ->
  addressed e <> Some p ->
  getGame gm p = Some g ->
  getGame (gm_after (handle sock e gm)) p = Some g.
Proof.
  intros Hd Ha Hg.
  destruct (handle_registry sock e gm)
    as [->|[(p1 & g1 & g' & Hg1 & Hstep & ->)
           |[(p1 & qs & d & ds & _ & Hfree & ->)
            |[(l1 & k & g0 & l2 & He & _)
             |(k & g0 & He & _)]]]]; try contradiction.
  - exact Hg.
  - destruct (game_step_addressed _ _ _ _ _ Hstep) as [->|[Hp1|He]];
      [|rewrite getGame_putGame_ne; [exact Hg | congruence] | contradiction].
    rewrite (putGame_id _ _ _ Hg1). exact Hg.
  - rewrite getGame_app, Hg. reflexivity.
Qed.

Lemma other_sessions_untouched_witness :
  getGame (gm_after (handle Scenario.host (next_question Scenario.otherPin)
                            Scenario.twoSessions))
          Scenario.thePin
  = Some (mkGame Scenario.thePin Scenario.host
            [mkPlayer Scenario.ana "Ana" 0 0; mkPlayer Scenario.bo "Bo" 0 0]
            [Scenario.q0; Scenario.q1] (-1) LOBBY ∅).
Proof.
  apply (other_sessions_untouched Scenario.host
           (next_question Scenario.otherPin) Scenario.twoSessions
           Scenario.thePin).
  - discriminate.
  - vm_compute. congruence.
  - reflexivity.
Defined.

(** A disconnect changes at most one session: there is a pin such that a
    lookup of any other pin gives what it gave before. *)
Theorem disconnect_touches_one_session (sock : string) (gm : GameManager) :
  exists k, forall p,
    p <> k ->
    getGame (gm_after (handle sock disconnect gm)) p = getGame gm p.
Proof.
  destruct (handle_registry sock disconnect gm)
    as [->|[(p1 & g1 & g' & Hg1 & Hstep & ->)
           |[(p1 & qs & d & ds & He & _)
            |[(l1 & k & g0 & l2 & _ & -> & _ & ->)
             |(k & g0 & _ & _ & _ & ->)]]]]; try discriminate.
  - exists "". reflexivity.
  - exists p1. intros p Hne. apply getGame_putGame_ne. congruence.
  - exists k. intros p Hne. rewrite !getGame_app.
    destruct (getGame l1 p); [reflexivity|]. simpl.
    destruct (decide (k = p)); [congruence | reflexivity].
  - exists k. intros p Hne. rewrite getGame_deleteGame.
    destruct (decide (k = p)); [congruence | reflexivity].
Qed.

(** ** Only the host drives a session *)

Lemma entry_getGame (gm : GameManager) (k : string) (g : Game) :
  NoDup (map fst gm) -> (k, g) ∈ gm -> getGame gm k = Some g.
Proof.
  induction gm as [|[k0 g0] gm IH]; simpl; intros Hnd Hin.
  - inversion Hin.
  - apply NoDup_cons in Hnd as [Hk0 Hnd].
    apply elem_of_cons in Hin as [[= -> ->]|Hin].
    + destruct (decide (k0 = k0)); [reflexivity | contradiction].
    + destruct (decide (k0 = k)) as [->|]; [|auto].
      exfalso. apply Hk0. apply list_elem_of_fmap.
      exists (k, g). split; [reflexivity | exact Hin].
Qed.

(** Whatever a socket that is not the host of a session sends, and also
    when it disconnects, the session stays registered with the phase, the
    question index, the questions and the host it had. *)
Theorem only_the_host_drives (sock : string) (e : Event) (gm : GameManager)
    (p : string) (g : Game) :
  well_formed gm ->
  getGame gm p = Some g ->
  hostId g <> sock ->
  exists g',
    getGame (gm_after (handle sock e gm)) p = Some g' /\
    state g' = state g /\
    currentQuestionIndex g' = currentQuestionIndex g /\
    questions g' = questions g /\
    hostId g' = hostId g.
Proof.
  intros [Hnd _] Hg Hh.
  destruct (handle_registry sock e gm)
    as [->|[(p1 & g1 & g' & Hg1 & Hstep & ->)
           |[(p1 & qs & d & ds & _ & Hfree & ->)
            |[(l1 & k & g0 & l2 & _ & Heq & _ & ->)
             |(k & g0 & _ & Hin & Hh0 & ->)]]]].
  - exists g. auto.
  - rewrite getGame_putGame, Hg.
    destruct (decide (p1 = p)) as [->|]; [|exists g; auto].
    rewrite Hg in Hg1. injection Hg1 as <-.
    exists g'. split; [reflexivity|].
    destruct Hstep; try contradiction; auto.
  - exists g. rewrite getGame_app, Hg. auto.
  - subst gm. rewrite getGame_app in Hg. rewrite getGame_app.
    destruct (getGame l1 p) as [x|].
    + injection Hg as ->. exists g. auto.
    + simpl in *. destruct (decide (k = p)).
      * injection Hg as ->. eexists. split; [reflexivity|]. auto.
      * exists g. auto.
  - exists g. rewrite getGame_deleteGame.
    destruct (decide (k = p)) as [->|]; [|auto].
    rewrite (entry_getGame _ _ _ Hnd Hin) in Hg. congruence.
Qed.

Lemma only_the_host_drives_witness :
  exists g',
    getGame (gm_after (handle Scenario.ana (next_question Scenario.thePin)
                              Scenario.asking))
            Scenario.thePin = Some g' /\
    state g' = QUESTION /\
    currentQuestionIndex g' = 0 /\
    questions g' = [Scenario.q0; Scenario.q1] /\
    hostId g' = Scenario.host.
Proof.
  apply (only_the_host_drives Scenario.ana (next_question Scenario.thePin)
           Scenario.asking Scenario.thePin
           (mkGame Scenario.thePin Scenario.host
              [mkPlayer Scenario.ana "Ana" 0 0; mkPlayer Scenario.bo "Bo" 0 0]
              [Scenario.q0; Scenario.q1] 0 QUESTION ∅)).
  - split; [apply NoDup_singleton | repeat constructor].
  - reflexivity.
  - vm_compute. congruence.
Defined.

(** ** When a handler throws *)

Lemma all_ready_check (gm : GameManager) :
  all_ready_b gm = true -> all_ready gm.
Proof.
  unfold all_ready_b. rewrite forallb_forall.
  intros H p g Hg.
  apply getGame_entry, list_elem_of_In, H in Hg. simpl in Hg.
  unfold question_ready_b in Hg.
  apply andb_prop in Hg as [Hi Hq]. split; [lia|].
  intros Hs. rewrite bool_decide_eq_true_2 in Hq by exact Hs. simpl in Hq.
  destruct (questionAt _ _); [eauto | discriminate].
Qed.

Lemma questionAt_in_bounds (qs : list Question) (i : Z) :
  0 <= i < Z.of_nat (length qs) -> is_Some (questionAt qs i).
Proof.
  intros Hi. unfold questionAt.
  destruct (i <? 0) eqn:Hneg; [lia|].
  apply lookup_lt_is_Some. lia.
Qed.

Lemma questionAt_Some_bounds (qs : list Question) (i : Z) :
  is_Some (questionAt qs i) -> 0 <= i < Z.of_nat (length qs).
Proof.
  unfold questionAt. destruct (i <? 0) eqn:Hneg.
  - intros [x Hx]. discriminate.
  - intros H. apply lookup_lt_is_Some in H. lia.
Qed.

(** One event keeps every session in phase QUESTION supplied with a
    current question, unless it starts a session that has no question. *)
Lemma handle_ready (sock : string) (e : Event) (gm : GameManager) :
  all_ready gm ->
  starts_empty gm sock e = false ->
  all_ready (gm_after (handle sock e gm)).
Proof.
  intros Hinv Hstart p g' Hg'.
  apply handle_shape in Hg' as [(g & Hg & Hstep)|(_ & qs & d & ds & _ & ->)].
  - destruct (Hinv p g Hg) as [Hi Hq].
    destruct Hstep; try (split; [exact Hi | exact Hq]).
    + split; [simpl; lia|]. intros _. simpl.
      simpl in Hstart. rewrite Hg in Hstart.
      rewrite bool_decide_eq_true_2 in Hstart by assumption.
      simpl in Hstart. apply bool_decide_eq_false in Hstart.
      destruct (questions g); [contradiction | eauto].
    + split; [simpl; lia|]. intros _. simpl.
      apply questionAt_in_bounds. lia.
    + split; [simpl; lia | discriminate].
    + split; [exact Hi | discriminate].
    + split; [exact Hi | discriminate].
  - split; [simpl; lia | discriminate].
Qed.

(** Along every sequence of events in which no host starts a session that
    has no question, the index of a session is at least -1 and a session in
    phase QUESTION has a current question: [questions[currentQuestionIndex]]
    is defined there. *)
Theorem question_phase_has_a_question (es : list (string * Event))
    (gm : GameManager) :
  all_ready gm ->
  no_empty_start gm es = true ->
  all_ready (run es gm).
Proof.
  revert gm. induction es as [|[sock e] es IH]; intros gm Hinv Hes.
  - exact Hinv.
  - simpl in Hes. apply andb_prop in Hes as [Hs Hrest].
    apply negb_true_iff in Hs. simpl. apply IH; [|exact Hrest].
    apply handle_ready; assumption.
Qed.

Lemma question_phase_has_a_question_witness :
  all_ready
    (run [(Scenario.host,
           create_game [Scenario.q0; Scenario.q1] Scenario.thePin []);
          (Scenario.ana, join_game Scenario.thePin "Ana");
          (Scenario.host, start_game Scenario.thePin);
          (Scenario.host, next_question Scenario.thePin);
          (Scenario.host, start_game Scenario.thePin);
          (Scenario.host, show_results Scenario.thePin)]
         []).
Proof.
  apply (question_phase_has_a_question
           [(Scenario.host,
             create_game [Scenario.q0; Scenario.q1] Scenario.thePin []);
            (Scenario.ana, join_game Scenario.thePin "Ana");
            (Scenario.host, start_game Scenario.thePin);
            (Scenario.host, next_question Scenario.thePin);
            (Scenario.host, start_game Scenario.thePin);
            (Scenario.host, show_results Scenario.thePin)]
           []).
  - apply all_ready_check. reflexivity.
  - vm_compute. reflexivity.
Defined.

(** In a registry where every session in phase QUESTION has a current
    question, a handler throws in exactly three situations: the host starts
    a session that has no question, the host asks for the results of a
    session that has no current question, or a [join_game] or a
    [submit_answer] arrives without a payload to destructure.  In
    particular [next_question], [create_game], a disconnect, and a
    [join_game] or a [submit_answer] that carries its payload never throw
    there. *)
Theorem handlers_throw_only_without_a_question (sock : string) (e : Event)
    (gm : GameManager) :
  all_ready gm ->
  completion (handle sock e gm) = TypeError <->
  starts_empty gm sock e = true \/ reveals_nothing gm sock e = true \/
  without_payload e = true.
Proof.
  intros Hinv.
  destruct e as [qs draw redraws|p1|p1|p1|p1 nick|p1 a t| | |]; simpl;
    [| | | | | | |split; auto|split; auto].
  - unfold on_create_game, createGame.
    destruct (freshPin gm draw redraws) as [p0|] eqn:Hf; simpl.
    + pose proof (freshPin_free _ _ _ _ Hf) as Hfree.
      rewrite getGame_app, Hfree. simpl.
      destruct (decide (p0 = p0)); [|contradiction]. simpl.
      split; [discriminate | intros [H|[H|H]]; discriminate].
    + split; [discriminate | intros [H|[H|H]]; discriminate].
  - unfold on_start_game.
    destruct (getGame gm p1) as [g|] eqn:Hg;
      [|simpl; split; [discriminate | intros [H|[H|H]]; discriminate]].
    destruct (decide (hostId g = sock)) as [Hh|Hh].
    + rewrite (bool_decide_eq_true_2 _ Hh). simpl.
      unfold sendQuestion. rewrite (getGame_putGame_eq _ _ _ _ Hg). simpl.
      destruct (questions g) as [|q qs]; simpl.
      * split; [left; reflexivity | reflexivity].
      * split; [discriminate | intros [H|[H|H]]; discriminate].
    + rewrite (bool_decide_eq_false_2 _ Hh). simpl.
      split; [discriminate | intros [H|[H|H]]; discriminate].
  - unfold on_next_question.
    destruct (getGame gm p1) as [g|] eqn:Hg;
      [|simpl; split; [discriminate | intros [H|[H|H]]; discriminate]].
    destruct (decide (hostId g = sock));
      [|simpl; split; [discriminate | intros [H|[H|H]]; discriminate]].
    simpl.
    destruct (currentQuestionIndex g + 1 <? Z.of_nat (length (questions g)))
      eqn:Hlt; [|simpl; split; [discriminate | intros [H|[H|H]]; discriminate]].
    unfold sendQuestion. rewrite (getGame_putGame_eq _ _ _ _ Hg). simpl.
    destruct (Hinv p1 g Hg) as [Hi _].
    destruct (questionAt_in_bounds (questions g) (currentQuestionIndex g + 1))
      as [q Hq]; [lia|].
    rewrite Hq. simpl. split; [discriminate | intros [H|[H|H]]; discriminate].
  - unfold on_show_results.
    destruct (getGame gm p1) as [g|] eqn:Hg;
      [|simpl; split; [discriminate | intros [H|[H|H]]; discriminate]].
    destruct (decide (hostId g = sock)) as [Hh|Hh].
    + rewrite (bool_decide_eq_true_2 _ Hh). simpl.
      destruct (questionAt (questions g) (currentQuestionIndex g)); simpl.
      * split; [discriminate | intros [H|[H|H]]; discriminate].
      * split; [right; left; reflexivity | reflexivity].
    + rewrite (bool_decide_eq_false_2 _ Hh). simpl.
      split; [discriminate | intros [H|[H|H]]; discriminate].
  - unfold on_join_game. destruct (getGame gm p1) as [g|]; simpl;
      [destruct (decide (state g = LOBBY)); simpl|];
      split; try discriminate; intros [H|[H|H]]; discriminate.
  - unfold on_submit_answer.
    destruct (getGame gm p1) as [g|] eqn:Hg;
      [|simpl; split; [discriminate | intros [H|[H|H]]; discriminate]].
    destruct (decide (state g = QUESTION)) as [Hs|];
      [|simpl; split; [discriminate | intros [H|[H|H]]; discriminate]].
    destruct (Hinv p1 g Hg) as [_ Hq]. destruct (Hq Hs) as [q ->].
    destruct (truthy _); simpl;
      [|destruct (bool_decide _);
        [unfold scoringEnds;
         destruct (findPlayer sock (players g)) as [pl|];
         [destruct (newScore (score pl) t)|]|]];
      split; try discriminate; intros [H|[H|H]]; discriminate.
  - unfold on_disconnect.
    destruct (removePlayer gm sock) as [gm1 [r|]]; simpl;
      [destruct (isHost r); simpl|];
      split; try discriminate; intros [H|[H|H]]; discriminate.
Qed.

Lemma handlers_throw_only_without_a_question_witness :
  completion (handle Scenario.host (show_results Scenario.thePin)
                     Scenario.ended) = TypeError <->
  starts_empty Scenario.ended Scenario.host (show_results Scenario.thePin)
    = true \/
  reveals_nothing Scenario.ended Scenario.host (show_results Scenario.thePin)
    = true \/
  without_payload (show_results Scenario.thePin) = true.
Proof.
  apply (handlers_throw_only_without_a_question Scenario.host
           (show_results Scenario.thePin) Scenario.ended).
  apply all_ready_check. reflexivity.
Defined.

(** ** Streaks *)

Lemma streaks_nonneg_check (gm : GameManager) :
  streaks_nonneg_b gm = true -> streaks_nonneg gm.
Proof.
  unfold streaks_nonneg_b. rewrite forallb_forall.
  intros H p g pl Hg Hpl.
  apply getGame_entry, list_elem_of_In, H in Hg. simpl in Hg.
  rewrite forallb_forall in Hg.
  apply list_elem_of_In, Hg in Hpl. lia.
Qed.

Lemma handle_streaks_nonneg (sock : string) (e : Event) (gm : GameManager) :
  streaks_nonneg gm -> streaks_nonneg (gm_after (handle sock e gm)).
Proof.
  intros Hinv p g' pl' Hg' Hin.
  apply handle_shape in Hg' as [(g & Hg & Hstep)|(_ & qs & d & ds & _ & ->)].
  - pose proof (Hinv p g) as Hold. specialize (Hold pl' Hg).
    destruct Hstep; simpl in Hin; try (apply Hold; exact Hin).
    + apply Hold. rewrite <- (sortDesc_perm (players g)). exact Hin.
    + apply Hold. rewrite <- (sortDesc_perm (players g)). exact Hin.
    + apply elem_of_app in Hin as [Hin|Hin]; [apply Hold; exact Hin|].
      apply list_elem_of_singleton in Hin as ->. simpl. lia.
    + apply updateFirst_elem in Hin as [Hin|(pl & Hin & _ & ->)];
        [apply Hold; exact Hin|].
      simpl. specialize (Hinv p g pl Hg Hin). lia.
    + apply updateFirst_elem in Hin as [Hin|(pl & Hin & _ & ->)];
        [apply Hold; exact Hin|].
      simpl. lia.
    + apply Hold. eapply spliceFirst_subseteq. exact Hin.
  - simpl in Hin. apply elem_of_nil in Hin. contradiction.
Qed.

(** Whatever the clients send, no streak ever becomes negative: a streak
    starts at 0, a correct answer adds 1 and a wrong answer sets it to 0. *)
Theorem streaks_never_negative (es : list (string * Event))
    (gm : GameManager) :
  streaks_nonneg gm -> streaks_nonneg (run es gm).
Proof.
  revert gm. induction es as [|[sock e] es IH]; intros gm Hinv; simpl.
  - exact Hinv.
  - apply IH. apply handle_streaks_nonneg. exact Hinv.
Qed.

Lemma streaks_never_negative_witness :
  streaks_nonneg
    (run [(Scenario.ana, submit_answer Scenario.thePin 0 (-100));
          (Scenario.bo, submit_answer Scenario.thePin 1 5);
          (Scenario.host, show_results Scenario.thePin)]
         Scenario.asking).
Proof.
  apply (streaks_never_negative
           [(Scenario.ana, submit_answer Scenario.thePin 0 (-100));
            (Scenario.bo, submit_answer Scenario.thePin 1 5);
            (Scenario.host, show_results Scenario.thePin)]
           Scenario.asking).
  apply streaks_nonneg_check. reflexivity.
Defined.

(** ** Stale commands *)

(** A host command for a pin that names no session or from a socket that
    is not the host, and a submission for a pin that names no session or a
    session that is not in phase QUESTION, do nothing at all: the registry
    is the one before and no message is sent, not even an error. *)
Theorem stale_commands_are_ignored (sock : string) (e : Event)
    (gm : GameManager) :
  stale gm sock e = true -> handle sock e gm = ignored gm.
Proof.
  destruct e as [qs draw redraws|p|p|p|p nick|p a t| | |]; simpl;
    try discriminate.
  - unfold on_start_game. destruct (getGame gm p) as [g|]; [|reflexivity].
    intros H. apply negb_true_iff, bool_decide_eq_false in H.
    destruct (decide (hostId g = sock)); [contradiction | reflexivity].
  - unfold on_next_question. destruct (getGame gm p) as [g|]; [|reflexivity].
    intros H. apply negb_true_iff, bool_decide_eq_false in H.
    destruct (decide (hostId g = sock)); [contradiction | reflexivity].
  - unfold on_show_results. destruct (getGame gm p) as [g|]; [|reflexivity].
    intros H. apply negb_true_iff, bool_decide_eq_false in H.
    destruct (decide (hostId g = sock)); [contradiction | reflexivity].
  - unfold on_submit_answer. destruct (getGame gm p) as [g|]; [|reflexivity].
    intros H. apply negb_true_iff, bool_decide_eq_false in H.
    destruct (decide (state g = QUESTION)); [contradiction | reflexivity].
Qed.

Lemma stale_commands_are_ignored_witness :
  handle Scenario.ana (submit_answer Scenario.thePin 0 20) Scenario.lobby
  = ignored Scenario.lobby.
Proof.
  apply (stale_commands_are_ignored Scenario.ana
           (submit_answer Scenario.thePin 0 20) Scenario.lobby).
  reflexivity.
Defined.

(** ** Taking an answer *)

(** The path of [submit_answer] that takes the answer: the session is in
    phase QUESTION, has a current question, and the answer on record for
    the socket is absent or falsy. *)
Lemma submit_accepted (sock p : string) (a : Z) (t : Q) (gm : GameManager)
    (g : Game) (q : Question) :
  getGame gm p = Some g ->
  state g = QUESTION ->
  questionAt (questions g) (currentQuestionIndex g) = Some q ->
  truthy (recordedAnswer gm p (currentQuestionIndex g) sock) = false ->
  let i := currentQuestionIndex g in
  let forQuestion := <[sock := a]> (default ∅ (answers g !! i)) in
  let ps := if bool_decide (correctIndex q = a)
            then updateFirst sock (scored t) (players g)
            else updateFirst sock resetStreak (players g) in
  handle sock (submit_answer p a t) gm =
  mkResult
    (putGame p (set_players ps
                  (set_answers (<[i := forQuestion]> (answers g)) g)) gm)
    [(ToRoom (hostId g), player_answered sock (Z.of_nat (size forQuestion)))]
    (if bool_decide (correctIndex q = a)
     then scoringEnds sock t (players g)
     else Returned).
Proof.
  intros Hg Hst Hq Hrec i forQuestion ps. subst forQuestion ps i.
  unfold recordedAnswer in Hrec. rewrite Hg in Hrec.
  cbn [handle]. unfold on_submit_answer. rewrite Hg.
  destruct (decide (state g = QUESTION)); [|contradiction].
  rewrite Hq.
  destruct (answers g !! currentQuestionIndex g) as [m|] eqn:Hm.
  - rewrite Hm. simpl. rewrite Hrec.
    destruct (bool_decide (correctIndex q = a)); reflexivity.
  - rewrite lookup_insert_eq. simpl. rewrite lookup_empty. simpl.
    rewrite insert_insert_eq.
    destruct (bool_decide (correctIndex q = a)); reflexivity.
Qed.

(** An answer that is taken goes on record under the current question and
    the socket's id, whoever sends it; the answers of the other sockets
    stay; the host is told the number of answers now on record for the
    question, which is one more than before for a first answer. *)
Theorem taken_answer_is_recorded_and_counted (sock p : string) (a : Z)
    (t : Q) (gm : GameManager) (g : Game) (q : Question) :
  getGame gm p = Some g ->
  state g = QUESTION ->
  questionAt (questions g) (currentQuestionIndex g) = Some q ->
  truthy (recordedAnswer gm p (currentQuestionIndex g) sock) = false ->
  let i := currentQuestionIndex g in
  let r := handle sock (submit_answer p a t) gm in
  recordedAnswer (gm_after r) p i sock = Some a /\
  (forall other, other <> sock ->
     recordedAnswer (gm_after r) p i other = recordedAnswer gm p i other) /\
  emitted r =
    [(ToRoom (hostId g), player_answered sock (answerCount (gm_after r) p i))] /\
  (recordedAnswer gm p i sock = None ->
   answerCount (gm_after r) p i = answerCount gm p i + 1).
Proof.
  intros Hg Hst Hq Hrec i r. subst r.
  rewrite (submit_accepted sock p a t gm g q Hg Hst Hq Hrec).
  fold i. unfold recordedAnswer, answerCount. cbn [gm_after emitted].
  rewrite (getGame_putGame_eq _ _ _ _ Hg), Hg. simpl.
  rewrite !lookup_insert_eq.
  split; [reflexivity|]. split; [|split; [reflexivity|]].
  - intros other Hne. rewrite lookup_insert_ne by congruence.
    destruct (answers g !! i); [reflexivity | apply lookup_empty].
  - destruct (answers g !! i) as [m|] eqn:Hm; simpl; intros Hnone.
    + rewrite (map_size_insert_None _ _ _ Hnone). lia.
    + rewrite map_size_insert_None by apply lookup_empty.
      rewrite map_size_empty. lia.
Qed.

Lemma taken_answer_is_recorded_and_counted_witness :
  recordedAnswer (gm_after (handle Scenario.bo
                              (submit_answer Scenario.thePin 2 7)
                              Scenario.anaOnce))
                 Scenario.thePin 0 Scenario.bo = Some 2 /\
  (forall other, other <> Scenario.bo ->
     recordedAnswer (gm_after (handle Scenario.bo
                                 (submit_answer Scenario.thePin 2 7)
                                 Scenario.anaOnce))
                    Scenario.thePin 0 other
     = recordedAnswer Scenario.anaOnce Scenario.thePin 0 other) /\
  emitted (handle Scenario.bo (submit_answer Scenario.thePin 2 7)
                  Scenario.anaOnce) =
    [(ToRoom Scenario.host,
      player_answered Scenario.bo
        (answerCount (gm_after (handle Scenario.bo
                                  (submit_answer Scenario.thePin 2 7)
                                  Scenario.anaOnce))
                     Scenario.thePin 0))] /\
  (recordedAnswer Scenario.anaOnce Scenario.thePin 0 Scenario.bo = None ->
   answerCount (gm_after (handle Scenario.bo
                            (submit_answer Scenario.thePin 2 7)
                            Scenario.anaOnce))
               Scenario.thePin 0
   = answerCount Scenario.anaOnce Scenario.thePin 0 + 1).
Proof.
  apply (taken_answer_is_recorded_and_counted Scenario.bo Scenario.thePin
           2 7 Scenario.anaOnce
           (mkGame Scenario.thePin Scenario.host
              [mkPlayer Scenario.ana "Ana" 1000 1; mkPlayer Scenario.bo "Bo" 0 0]
              [Scenario.q0; Scenario.q1] 0 QUESTION
              {[0 := {[Scenario.ana := 0]}]})
           Scenario.q0); vm_compute; reflexivity.
Defined.

(** A wrong answer that is taken sets the streak of the participant to 0,
    whatever it was, and leaves the score and every other player entry as
    they were. *)
Theorem wrong_answer_resets_the_streak (sock p : string) (a : Z) (t : Q)
    (gm : GameManager) (g : Game) (q : Question) :
  getGame gm p = Some g ->
  state g = QUESTION ->
  questionAt (questions g) (currentQuestionIndex g) = Some q ->
  correctIndex q <> a ->
  truthy (recordedAnswer gm p (currentQuestionIndex g) sock) = false ->
  hasPlayer sock (players g) = true ->
  exists ps1 pl ps2,
    players g = ps1 ++ pl :: ps2 /\ pid pl = sock /\
    hasPlayer sock ps1 = false /\
    playersOf (gm_after (handle sock (submit_answer p a t) gm)) p =
      ps1 ++ mkPlayer (pid pl) (nickname pl) (score pl) 0 :: ps2.
Proof.
  intros Hg Hst Hq Hwrong Hrec Hin.
  rewrite (submit_accepted sock p a t gm g q Hg Hst Hq Hrec).
  rewrite (bool_decide_eq_false_2 _ Hwrong).
  unfold playersOf. cbn [gm_after].
  rewrite (getGame_putGame_eq _ _ _ _ Hg). simpl.
  destruct (updateFirst_present sock resetStreak _ Hin)
    as (ps1 & pl & ps2 & Hps & Hpl & Hno & Hup).
  exists ps1, pl, ps2. rewrite Hup. repeat split; assumption.
Qed.

Lemma wrong_answer_resets_the_streak_witness :
  exists ps1 pl ps2,
    [mkPlayer Scenario.ana "Ana" 1000 1; mkPlayer Scenario.bo "Bo" 0 0]
      = ps1 ++ pl :: ps2 /\ pid pl = Scenario.ana /\
    hasPlayer Scenario.ana ps1 = false /\
    playersOf (gm_after (handle Scenario.ana
                           (submit_answer Scenario.thePin 2 20)
                           Scenario.anaOnce))
              Scenario.thePin =
      ps1 ++ mkPlayer (pid pl) (nickname pl) (score pl) 0 :: ps2.
Proof.
  apply (wrong_answer_resets_the_streak Scenario.ana Scenario.thePin 2 20
           Scenario.anaOnce
           (mkGame Scenario.thePin Scenario.host
              [mkPlayer Scenario.ana "Ana" 1000 1; mkPlayer Scenario.bo "Bo" 0 0]
              [Scenario.q0; Scenario.q1] 0 QUESTION
              {[0 := {[Scenario.ana := 0]}]})
           Scenario.q0); try (vm_compute; reflexivity).
  vm_compute. congruence.
Defined.

(** [submit_answer] does not ask whether the socket has joined: the answer
    of a socket that is not among the players, the host for one, is put on
    record and counted like any other, and no player entry changes. *)
Theorem answer_of_a_socket_that_never_joined (sock p : string) (a : Z)
    (t : Q) (gm : GameManager) (g : Game) (q : Question) :
  getGame gm p = Some g ->
  state g = QUESTION ->
  questionAt (questions g) (currentQuestionIndex g) = Some q ->
  recordedAnswer gm p (currentQuestionIndex g) sock = None ->
  hasPlayer sock (players g) = false ->
  let r := handle sock (submit_answer p a t) gm in
  playersOf (gm_after r) p = players g /\
  recordedAnswer (gm_after r) p (currentQuestionIndex g) sock = Some a /\
  emitted r =
    [(ToRoom (hostId g),
      player_answered sock (answerCount gm p (currentQuestionIndex g) + 1))].
Proof.
  intros Hg Hst Hq Hrec Hout r. subst r.
  assert (Hfalsy :
            truthy (recordedAnswer gm p (currentQuestionIndex g) sock) = false)
    by (rewrite Hrec; reflexivity).
  rewrite (submit_accepted sock p a t gm g q Hg Hst Hq Hfalsy).
  unfold playersOf, recordedAnswer, answerCount in *. cbn [gm_after emitted].
  rewrite (getGame_putGame_eq _ _ _ _ Hg). rewrite Hg in *. simpl.
  rewrite !lookup_insert_eq.
  split; [|split; [reflexivity|]].
  - destruct (bool_decide (correctIndex q = a));
      apply updateFirst_absent; exact Hout.
  - do 3 f_equal.
    destruct (answers g !! currentQuestionIndex g) as [m|]; simpl.
    + rewrite (map_size_insert_None _ _ _ Hrec). lia.
    + rewrite map_size_insert_None by apply lookup_empty.
      rewrite map_size_empty. lia.
Qed.

Lemma answer_of_a_socket_that_never_joined_witness :
  playersOf (gm_after (handle Scenario.host
                         (submit_answer Scenario.thePin 0 20)
                         Scenario.anaOnce))
            Scenario.thePin
  = [mkPlayer Scenario.ana "Ana" 1000 1; mkPlayer Scenario.bo "Bo" 0 0] /\
  recordedAnswer (gm_after (handle Scenario.host
                              (submit_answer Scenario.thePin 0 20)
                              Scenario.anaOnce))
                 Scenario.thePin 0 Scenario.host = Some 0 /\
  emitted (handle Scenario.host (submit_answer Scenario.thePin 0 20)
                  Scenario.anaOnce) =
    [(ToRoom Scenario.host,
      player_answered Scenario.host
        (answerCount Scenario.anaOnce Scenario.thePin 0 + 1))].
Proof.
  apply (answer_of_a_socket_that_never_joined Scenario.host Scenario.thePin
           0 20 Scenario.anaOnce
           (mkGame Scenario.thePin Scenario.host
              [mkPlayer Scenario.ana "Ana" 1000 1; mkPlayer Scenario.bo "Bo" 0 0]
              [Scenario.q0; Scenario.q1] 0 QUESTION
              {[0 := {[Scenario.ana := 0]}]})
           Scenario.q0); vm_compute; reflexivity.
Defined.

Lemma submit_answer_duplicate_ignored_witness :
  handle Scenario.ana (submit_answer Scenario.thePin 0 20) Scenario.answered
  = ignored Scenario.answered.
Proof.
  apply (submit_answer_duplicate_ignored Scenario.ana Scenario.thePin 2 0 20
           Scenario.answered
           (mkGame Scenario.thePin Scenario.host
              [mkPlayer Scenario.ana "Ana" 0 0; mkPlayer Scenario.bo "Bo" 875 1]
              [Scenario.q0; Scenario.q1] 0 QUESTION
              {[0 := {[Scenario.bo := 0; Scenario.ana := 2]}]})
           Scenario.q0); try (vm_compute; reflexivity).
  lia.
Defined.

(** ** Where answers are kept *)

Lemma submit_answers_shape (sock p1 : string) (a : Z) (t : Q)
    (gm : GameManager) (p : string) (g' : Game) :
  getGame (gm_after (on_submit_answer sock p1 a t gm)) p = Some g' ->
  exists g,
    getGame gm p = Some g /\
    questions g' = questions g /\
    currentQuestionIndex g' = currentQuestionIndex g /\
    (answers g' = answers g \/
     is_Some (questionAt (questions g) (currentQuestionIndex g)) /\
     exists m, answers g' = <[currentQuestionIndex g := m]> (answers g)).
Proof.
  unfold on_submit_answer.
  assert (Hsame : getGame gm p = Some g' ->
            exists g,
              getGame gm p = Some g /\
              questions g' = questions g /\
              currentQuestionIndex g' = currentQuestionIndex g /\
              (answers g' = answers g \/
               is_Some (questionAt (questions g) (currentQuestionIndex g)) /\
               exists m, answers g' = <[currentQuestionIndex g := m]> (answers g))).
  { intros H. exists g'. auto. }
  destruct (getGame gm p1) as [g1|] eqn:Hg1; [|exact Hsame].
  destruct (decide (state g1 = QUESTION)); [|exact Hsame].
  destruct (questionAt (questions g1) (currentQuestionIndex g1)) as [q|] eqn:Hq;
    [|exact Hsame].
  assert (Hput : forall gnew,
            questions gnew = questions g1 ->
            currentQuestionIndex gnew = currentQuestionIndex g1 ->
            (answers gnew = answers g1 \/
             exists m, answers gnew = <[currentQuestionIndex g1 := m]> (answers g1)) ->
            getGame (putGame p1 gnew gm) p = Some g' ->
            exists g,
              getGame gm p = Some g /\
              questions g' = questions g /\
              currentQuestionIndex g' = currentQuestionIndex g /\
              (answers g' = answers g \/
               is_Some (questionAt (questions g) (currentQuestionIndex g)) /\
               exists m, answers g' = <[currentQuestionIndex g := m]> (answers g))).
  { intros gnew Hqs Hi Ha H. rewrite getGame_putGame in H.
    destruct (decide (p1 = p)) as [->|].
    - rewrite Hg1 in H. injection H as <-. exists g1.
      repeat split; try assumption.
      destruct Ha as [Ha|Ha]; [left; exact Ha|].
      right. split; [rewrite Hq; eauto | exact Ha].
    - destruct (getGame gm p) as [g|]; [|discriminate].
      injection H as <-. exists g. auto. }
  destruct (truthy _); simpl; apply Hput; try reflexivity; simpl.
  - destruct (answers g1 !! currentQuestionIndex g1); eauto.
  - right. destruct (answers g1 !! currentQuestionIndex g1); [eauto|].
    rewrite insert_insert_eq. eauto.
Qed.

Lemma handle_answers_in_bounds (sock : string) (e : Event)
    (gm : GameManager) :
  all_answers_in_bounds gm ->
  all_answers_in_bounds (gm_after (handle sock e gm)).
Proof.
  intros Hinv p g' Hg'.
  assert (Hins : forall g i (m : gmap string Z),
            answers_in_bounds g ->
            0 <= i < Z.of_nat (length (questions g)) ->
            forall j, is_Some (<[i := m]> (answers g) !! j) ->
                      0 <= j < Z.of_nat (length (questions g))).
  { intros g i m [_ Hb] Hi j Hj. rewrite lookup_insert in Hj.
    destruct (decide (i = j)) as [<-|]; [exact Hi | auto]. }
  assert (Hother :
            (forall p1 a t, e <> submit_answer p1 a t) -> answers_in_bounds g').
  { intros Hne.
    apply handle_shape in Hg'
      as [(g & Hg & Hstep)|(_ & qs' & d & ds & _ & ->)].
    - pose proof (Hinv p g Hg) as [Hi Hb].
      destruct Hstep; try (split; simpl; [lia | exact Hb]);
        try (exfalso; eapply Hne; reflexivity).
      split; simpl; [lia|].
      apply (Hins g _ ∅); [split; assumption | lia].
    - split; simpl; [lia|].
      intros i [x Hx]. rewrite lookup_empty in Hx. discriminate. }
  destruct e as [qs draw redraws|p1|p1|p1|p1 nick|p1 a t| | |];
    try (apply Hother; discriminate).
  simpl in Hg'. apply submit_answers_shape in Hg'
    as (g & Hg & Hqs & Hidx & Ha).
  pose proof (Hinv p g Hg) as [Hi Hb].
  split; [lia|]. rewrite Hqs.
  destruct Ha as [->|[Hq [m ->]]]; [exact Hb|].
  apply (Hins g _ m); [split; assumption|].
  apply questionAt_Some_bounds. exact Hq.
Qed.

(** Along every sequence of events, the index of a session is at least -1
    and an answer map exists only under the index of one of the session's
    questions: nothing is ever recorded under -1 or under an index from
    [questions.length] on. *)
Theorem answers_only_under_question_indices (es : list (string * Event))
    (gm : GameManager) :
  all_answers_in_bounds gm -> all_answers_in_bounds (run es gm).
Proof.
  revert gm. induction es as [|[sock e] es IH]; intros gm Hinv; simpl.
  - exact Hinv.
  - apply IH. apply handle_answers_in_bounds. exact Hinv.
Qed.

Lemma answers_only_under_question_indices_witness :
  all_answers_in_bounds
    (run [(Scenario.host,
           create_game [Scenario.q0; Scenario.q1] Scenario.thePin []);
          (Scenario.ana, join_game Scenario.thePin "Ana");
          (Scenario.host, start_game Scenario.thePin);
          (Scenario.ana, submit_answer Scenario.thePin 0 15);
          (Scenario.host, next_question Scenario.thePin);
          (Scenario.host, next_question Scenario.thePin);
          (Scenario.ana, submit_answer Scenario.thePin 1 15)]
         []).
Proof.
  apply (answers_only_under_question_indices
           [(Scenario.host,
             create_game [Scenario.q0; Scenario.q1] Scenario.thePin []);
            (Scenario.ana, join_game Scenario.thePin "Ana");
            (Scenario.host, start_game Scenario.thePin);
            (Scenario.ana, submit_answer Scenario.thePin 0 15);
            (Scenario.host, next_question Scenario.thePin);
            (Scenario.host, next_question Scenario.thePin);
            (Scenario.ana, submit_answer Scenario.thePin 1 15)]
           []).
  intros p g H. discriminate H.
Defined.

(** ** The host commands *)

(** [start_game] from the host of a session that has a first question, in
    whatever phase the session is: the phase becomes QUESTION and the index
    0, the players with their scores and streaks and the answers on record
    stay as they are, the room is told that the game started, the host
    gets the full first question, and everybody else in the room its text,
    options, time limit (20 when the question has none or 0), index and
    the number of questions. *)
Theorem start_game_dispatches_first_question (p : string) (gm : GameManager)
    (g : Game) (q : Question) (qs : list Question) :
  getGame gm p = Some g ->
  questions g = q :: qs ->
  handle (hostId g) (start_game p) gm =
  mkResult
    (putGame p (mkGame (pin g) (hostId g) (players g) (questions g) 0
                       QUESTION (answers g)) gm)
    [(ToRoom p, game_started);
     (ToRoom (hostId g), new_question_host (Some q));
     (ToRoomExcept p (hostId g),
      new_question_player (text q) (options q)
        (match timeLimit q with
         | Some 0 => 20
         | Some limit => limit
         | None => 20
         end)
        0 (Z.of_nat (S (length qs))))]
    Returned.
Proof.
  intros Hg Hqs. simpl. unfold on_start_game. rewrite Hg.
  destruct (decide (hostId g = hostId g)); [|contradiction].
  unfold sendQuestion. rewrite (getGame_putGame_eq _ _ _ _ Hg).
  simpl. rewrite Hqs. simpl. unfold set_index, set_state. simpl.
  rewrite Hqs. unfold effectiveLimit.
  destruct (timeLimit q) as [[| |]|]; reflexivity.
Qed.

Lemma start_game_dispatches_first_question_witness :
  handle Scenario.host (start_game Scenario.thePin) Scenario.answered =
  mkResult
    (putGame Scenario.thePin
       (mkGame Scenario.thePin Scenario.host
          [mkPlayer Scenario.ana "Ana" 0 0; mkPlayer Scenario.bo "Bo" 875 1]
          [Scenario.q0; Scenario.q1] 0 QUESTION
          {[0 := {[Scenario.bo := 0; Scenario.ana := 2]}]})
       Scenario.answered)
    [(ToRoom Scenario.thePin, game_started);
     (ToRoom Scenario.host, new_question_host (Some Scenario.q0));
     (ToRoomExcept Scenario.thePin Scenario.host,
      new_question_player "Capital of France?" ["Paris"; "Rome"; "Oslo"]
                          20 0 2)]
    Returned.
Proof.
  refine (start_game_dispatches_first_question Scenario.thePin
            Scenario.answered
            (mkGame Scenario.thePin Scenario.host
               [mkPlayer Scenario.ana "Ana" 0 0; mkPlayer Scenario.bo "Bo" 875 1]
               [Scenario.q0; Scenario.q1] 0 QUESTION
               {[0 := {[Scenario.bo := 0; Scenario.ana := 2]}]})
            Scenario.q0 [Scenario.q1] _ _);
    vm_compute; reflexivity.
Defined.

(** [next_question] from the host while a further question exists: the
    index goes up by one, the phase is QUESTION, nobody has an answer on
    record for the new question, the players stay as they are, and the new
    question is sent, in full to the host and without its correct option
    to everybody else. *)
Theorem next_question_dispatches_next (p : string) (gm : GameManager)
    (g : Game) (q : Question) :
  getGame gm p = Some g ->
  questionAt (questions g) (currentQuestionIndex g + 1) = Some q ->
  let r := handle (hostId g) (next_question p) gm in
  let i := currentQuestionIndex g + 1 in
  (exists g',
     getGame (gm_after r) p = Some g' /\
     state g' = QUESTION /\ currentQuestionIndex g' = i /\
     players g' = players g /\ questions g' = questions g) /\
  (forall sock, recordedAnswer (gm_after r) p i sock = None) /\
  emitted r =
    [(ToRoom (hostId g), new_question_host (Some q));
     (ToRoomExcept p (hostId g),
      new_question_player (text q) (options q) (effectiveLimit q) i
                          (Z.of_nat (length (questions g))))] /\
  completion r = Returned.
Proof.
  intros Hg Hq r i. subst r i. simpl. unfold on_next_question. rewrite Hg.
  destruct (decide (hostId g = hostId g)); [|contradiction]. simpl.
  assert (Hb : is_Some (questionAt (questions g) (currentQuestionIndex g + 1)))
    by (rewrite Hq; eauto).
  apply questionAt_Some_bounds in Hb.
  destruct (currentQuestionIndex g + 1 <? Z.of_nat (length (questions g)))
    eqn:Hlt; [|lia].
  unfold sendQuestion. rewrite (getGame_putGame_eq _ _ _ _ Hg). simpl.
  rewrite Hq. simpl. unfold recordedAnswer.
  rewrite (getGame_putGame_eq _ _ _ _ Hg). simpl.
  rewrite lookup_insert_eq.
  split; [eexists; repeat split; reflexivity|].
  split; [intros sock; apply lookup_empty|]. split; reflexivity.
Qed.

Lemma next_question_dispatches_next_witness :
  (exists g',
     getGame (gm_after (handle Scenario.host (next_question Scenario.thePin)
                               Scenario.answered))
             Scenario.thePin = Some g' /\
     state g' = QUESTION /\ currentQuestionIndex g' = 0 + 1 /\
     players g' =
       [mkPlayer Scenario.ana "Ana" 0 0; mkPlayer Scenario.bo "Bo" 875 1] /\
     questions g' = [Scenario.q0; Scenario.q1]) /\
  (forall sock,
     recordedAnswer (gm_after (handle Scenario.host
                                 (next_question Scenario.thePin)
                                 Scenario.answered))
                    Scenario.thePin (0 + 1) sock = None) /\
  emitted (handle Scenario.host (next_question Scenario.thePin)
                  Scenario.answered) =
    [(ToRoom Scenario.host, new_question_host (Some Scenario.q1));
     (ToRoomExcept Scenario.thePin Scenario.host,
      new_question_player "2 + 2?" ["3"; "4"] 10 (0 + 1) 2)] /\
  completion (handle Scenario.host (next_question Scenario.thePin)
                     Scenario.answered) = Returned.
Proof.
  apply (next_question_dispatches_next Scenario.thePin Scenario.answered
           (mkGame Scenario.thePin Scenario.host
              [mkPlayer Scenario.ana "Ana" 0 0; mkPlayer Scenario.bo "Bo" 875 1]
              [Scenario.q0; Scenario.q1] 0 QUESTION
              {[0 := {[Scenario.bo := 0; Scenario.ana := 2]}]})
           Scenario.q1);
    vm_compute; reflexivity.
Defined.




(** The full question object, which holds the correct option, is only ever
    sent to the room of the socket that gave the command, and that socket
    is the host of the session; it is sent by [start_game] and
    [next_question] and by nothing else. *)
Theorem full_question_goes_to_the_host_only (sock : string) (e : Event)
    (gm : GameManager) (tgt : Target) (question : option Question) :
  (tgt, new_question_host question) ∈ emitted (handle sock e gm) ->
  tgt = ToRoom sock /\
  exists p g,
    (e = start_game p \/ e = next_question p) /\
    getGame gm p = Some g /\ hostId g = sock.
Proof.
  assert (Hsend : forall gm1 p,
            (tgt, new_question_host question) ∈ fst (sendQuestion gm1 p) ->
            exists g1, getGame gm1 p = Some g1 /\ tgt = ToRoom (hostId g1)).
  { intros gm1 p. unfold sendQuestion.
    destruct (getGame gm1 p) as [g1|]; simpl.
    - intros H. exists g1. split; [reflexivity|].
      destruct (questionAt _ _); simpl in H;
        repeat (apply elem_of_cons in H as [H|H];
                [first [discriminate H | injection H as -> _; reflexivity]|]);
        apply elem_of_nil in H; contradiction.
    - intros H. apply elem_of_nil in H. contradiction. }
  assert (Hno : forall l : list Emit,
            (forall x, x ∈ l -> forall q0, snd x <> new_question_host q0) ->
            (tgt, new_question_host question) ∈ l ->
            tgt = ToRoom sock /\
            exists p g,
              (e = start_game p \/ e = next_question p) /\
              getGame gm p = Some g /\ hostId g = sock).
  { intros l Hl Hin. exfalso. exact (Hl _ Hin question eq_refl). }
  destruct e as [qs draw redraws|p1|p1|p1|p1 nick|p1 a t| | |]; simpl;
    [| | | | | | |intros H; apply elem_of_nil in H; contradiction
                 |intros H; apply elem_of_nil in H; contradiction].
  - unfold on_create_game. apply Hno.
    destruct (createGame _ _ _ _) as [[gm1 p0]|]; simpl;
      [destruct (getGame gm1 p0); simpl|];
      intros x Hx q0;
      repeat (apply elem_of_cons in Hx as [->|Hx]; [discriminate|]);
      apply elem_of_nil in Hx; contradiction.
  - unfold on_start_game.
    destruct (getGame gm p1) as [g|] eqn:Hg; simpl;
      [|intros H; apply elem_of_nil in H; contradiction].
    destruct (decide (hostId g = sock)) as [Hh|]; simpl;
      [|intros H; apply elem_of_nil in H; contradiction].
    pose proof (Hsend (putGame p1 (set_index 0 (set_state QUESTION g)) gm) p1)
      as Hs.
    destruct (sendQuestion _ p1) as [out c]. simpl in *.
    intros H. apply elem_of_cons in H as [H|H]; [discriminate H|].
    destruct (Hs H) as (g1 & Hg1 & ->).
    rewrite (getGame_putGame_eq _ _ _ _ Hg) in Hg1. injection Hg1 as <-.
    simpl. rewrite Hh. split; [reflexivity|]. exists p1, g. auto.
  - unfold on_next_question.
    destruct (getGame gm p1) as [g|] eqn:Hg; simpl;
      [|intros H; apply elem_of_nil in H; contradiction].
    destruct (decide (hostId g = sock)) as [Hh|]; simpl;
      [|intros H; apply elem_of_nil in H; contradiction].
    destruct (_ <? _); simpl.
    + match goal with
      | |- context [sendQuestion ?m p1] =>
          pose proof (Hsend m p1) as Hs;
          destruct (sendQuestion m p1) as [out c]
      end.
      simpl in *. intros H. destruct (Hs H) as (g1 & Hg1 & ->).
      rewrite (getGame_putGame_eq _ _ _ _ Hg) in Hg1. injection Hg1 as <-.
      simpl. rewrite Hh. split; [reflexivity|]. exists p1, g. auto.
    + intros H. apply elem_of_cons in H as [H|H]; [discriminate H|].
      apply elem_of_nil in H. contradiction.
  - unfold on_show_results. apply Hno.
    destruct (getGame gm p1) as [g|]; simpl;
      [destruct (decide _); simpl;
       [destruct (questionAt _ _); simpl|]|];
      intros x Hx q0;
      repeat (apply elem_of_cons in Hx as [->|Hx]; [discriminate|]);
      apply elem_of_nil in Hx; contradiction.
  - unfold on_join_game. apply Hno.
    destruct (getGame gm p1) as [g|]; simpl;
      [destruct (decide _); simpl|];
      intros x Hx q0;
      repeat (apply elem_of_cons in Hx as [->|Hx]; [discriminate|]);
      apply elem_of_nil in Hx; contradiction.
  - unfold on_submit_answer. apply Hno.
    destruct (getGame gm p1) as [g|]; simpl;
      [destruct (decide _); simpl;
       [destruct (questionAt _ _); simpl; [destruct (truthy _); simpl|]|]|];
      intros x Hx q0;
      repeat (apply elem_of_cons in Hx as [->|Hx]; [discriminate|]);
      apply elem_of_nil in Hx; contradiction.
  - unfold on_disconnect. apply Hno.
    destruct (removePlayer gm sock) as [gm1 [r|]]; simpl;
      [destruct (isHost r); simpl|];
      intros x Hx q0;
      repeat (apply elem_of_cons in Hx as [->|Hx]; [discriminate|]);
      apply elem_of_nil in Hx; contradiction.
Qed.

Lemma full_question_goes_to_the_host_only_witness :
  ToRoom Scenario.host = ToRoom Scenario.host /\
  exists p g,
    (start_game Scenario.thePin = start_game p \/
     start_game Scenario.thePin = next_question p) /\
    getGame Scenario.lobby p = Some g /\ hostId g = Scenario.host.
Proof.
  apply (full_question_goes_to_the_host_only Scenario.host
           (start_game Scenario.thePin) Scenario.lobby
           (ToRoom Scenario.host) (Some Scenario.q0)).
  vm_compute. right. left.
Defined.

(** ** Joining and leaving *)

(** A [join_game] for a session in LOBBY appends one player entry for the
    calling socket, with the nickname given and score and streak 0, behind
    the players already there; the room gets the new list and the caller
    the confirmation.  Nothing is checked beyond the phase: a socket that
    has joined before, and a nickname that is in use, get a further
    entry. *)
Theorem join_appends_a_player (sock p nick : string) (gm : GameManager)
    (g : Game) :
  getGame gm p = Some g ->
  state g = LOBBY ->
  handle sock (join_game p nick) gm =
  mkResult
    (putGame p (set_players (players g ++ [mkPlayer sock nick 0 0]) g) gm)
    [(ToRoom p, player_joined (players g ++ [mkPlayer sock nick 0 0]));
     (ToCaller sock, joined_success p nick)]
    Returned.
Proof.
  intros Hg Hl. simpl. unfold on_join_game. rewrite Hg.
  destruct (decide (state g = LOBBY)); [|contradiction].
  unfold addPlayer, playersOf. rewrite Hg. simpl.
  rewrite (getGame_putGame_eq _ _ _ _ Hg). reflexivity.
Qed.

Lemma join_appends_a_player_witness :
  handle Scenario.ana (join_game Scenario.thePin "Ana again") Scenario.lobby =
  mkResult
    (putGame Scenario.thePin
       (mkGame Scenario.thePin Scenario.host
          [mkPlayer Scenario.ana "Ana" 0 0; mkPlayer Scenario.bo "Bo" 0 0;
           mkPlayer Scenario.ana "Ana again" 0 0]
          [Scenario.q0; Scenario.q1] (-1) LOBBY ∅)
       Scenario.lobby)
    [(ToRoom Scenario.thePin,
      player_joined
        [mkPlayer Scenario.ana "Ana" 0 0; mkPlayer Scenario.bo "Bo" 0 0;
         mkPlayer Scenario.ana "Ana again" 0 0]);
     (ToCaller Scenario.ana, joined_success Scenario.thePin "Ana again")]
    Returned.
Proof.
  refine (join_appends_a_player Scenario.ana Scenario.thePin "Ana again"
            Scenario.lobby
            (mkGame Scenario.thePin Scenario.host
               [mkPlayer Scenario.ana "Ana" 0 0; mkPlayer Scenario.bo "Bo" 0 0]
               [Scenario.q0; Scenario.q1] (-1) LOBBY ∅) _ _);
    reflexivity.
Defined.

Lemma removeScan_unknown (sock : string) (rest seen : GameManager) :
  unknown_socket rest sock = true ->
  removeScan sock seen rest = (seen ++ rest, None).
Proof.
  revert seen. induction rest as [|[k g] rest IH]; intros seen; simpl.
  - rewrite app_nil_r. reflexivity.
  - intros H. apply andb_prop in H as [H Hrest].
    apply andb_prop in H as [Hp Hh].
    apply negb_true_iff in Hp. apply negb_true_iff, bool_decide_eq_false in Hh.
    rewrite Hp. destruct (decide (hostId g = sock)); [contradiction|].
    rewrite (IH _ Hrest), <- app_assoc. reflexivity.
Qed.

(** The disconnect of a socket that is neither a player nor the host of
    any session changes nothing and sends nothing. *)
Theorem disconnect_of_unknown_socket (sock : string) (gm : GameManager) :
  unknown_socket gm sock = true ->
  handle sock disconnect gm = ignored gm.
Proof.
  intros H. simpl. unfold on_disconnect, removePlayer.
  rewrite (removeScan_unknown _ _ _ H). reflexivity.
Qed.

Lemma disconnect_of_unknown_socket_witness :
  handle "socket-eve" disconnect Scenario.twoSessions
  = ignored Scenario.twoSessions.
Proof.
  apply (disconnect_of_unknown_socket "socket-eve" Scenario.twoSessions).
  reflexivity.
Defined.

Lemma spliceFirst_present (sock : string) (ps : list Player) :
  hasPlayer sock ps = true ->
  exists ps1 pl ps2,
    ps = ps1 ++ pl :: ps2 /\ pid pl = sock /\ hasPlayer sock ps1 = false /\
    spliceFirst sock ps = ps1 ++ ps2.
Proof.
  induction ps as [|p ps IH]; simpl; [discriminate|].
  destruct (decide (pid p = sock)) as [Heq|Hne]; intros H.
  - exists [], p, ps. repeat split; assumption.
  - destruct (IH H) as (ps1 & pl & ps2 & -> & Hpl & Hno & Hsp).
    exists (p :: ps1), pl, ps2. simpl.
    destruct (decide (pid p = sock)); [contradiction|].
    rewrite Hsp. repeat split; assumption.
Qed.

Lemma removeScan_player (sock X : string) (g : Game)
    (before after seen : GameManager) :
  unknown_socket before sock = true ->
  hasPlayer sock (players g) = true ->
  removeScan sock seen (before ++ (X, g) :: after) =
  (seen ++ before ++
     (X, set_players (spliceFirst sock (players g)) g) :: after,
   Some (mkRemoval X (set_players (spliceFirst sock (players g)) g) false)).
Proof.
  intros Hb Hp. revert seen Hb.
  induction before as [|[k g0] before IH]; intros seen Hb; simpl.
  - rewrite Hp. reflexivity.
  - simpl in Hb. apply andb_prop in Hb as [H Hrest].
    apply andb_prop in H as [Hp0 Hh0].
    apply negb_true_iff in Hp0.
    apply negb_true_iff, bool_decide_eq_false in Hh0.
    rewrite Hp0. destruct (decide (hostId g0 = sock)); [contradiction|].
    rewrite (IH _ Hrest), <- app_assoc. reflexivity.
Qed.

(** The disconnect of a socket that is a player of session X, X being the
    first session in which the socket has a part: the first entry with the
    socket's id is taken out of the players of X and the others keep their
    order (a further entry of the same socket stays); the session stays
    registered, in whatever phase and also when the socket is its host; the
    room gets [player_left] with the players that remain. *)
Theorem player_disconnect_removes_one_entry (sock X : string) (g : Game)
    (before after : GameManager) :
  unknown_socket before sock = true ->
  hasPlayer sock (players g) = true ->
  let r := handle sock disconnect (before ++ (X, g) :: after) in
  exists ps1 pl ps2,
    players g = ps1 ++ pl :: ps2 /\ pid pl = sock /\
    hasPlayer sock ps1 = false /\
    gm_after r = before ++ (X, set_players (ps1 ++ ps2) g) :: after /\
    emitted r = [(ToRoom X, player_left (ps1 ++ ps2))] /\
    completion r = Returned.
Proof.
  intros Hb Hp r. subst r. simpl. unfold on_disconnect, removePlayer.
  rewrite (removeScan_player sock X g before after [] Hb Hp). simpl.
  destruct (spliceFirst_present sock _ Hp)
    as (ps1 & pl & ps2 & Hps & Hpl & Hno & ->).
  exists ps1, pl, ps2. repeat split; assumption.
Qed.

Lemma player_disconnect_removes_one_entry_witness :
  exists ps1 pl ps2,
    [mkPlayer Scenario.ana "Ana" 0 0; mkPlayer Scenario.bo "Bo" 875 1]
      = ps1 ++ pl :: ps2 /\ pid pl = Scenario.bo /\
    hasPlayer Scenario.bo ps1 = false /\
    gm_after (handle Scenario.bo disconnect Scenario.answered) =
      [(Scenario.thePin,
        set_players (ps1 ++ ps2)
          (mkGame Scenario.thePin Scenario.host
             [mkPlayer Scenario.ana "Ana" 0 0; mkPlayer Scenario.bo "Bo" 875 1]
             [Scenario.q0; Scenario.q1] 0 QUESTION
             {[0 := {[Scenario.bo := 0; Scenario.ana := 2]}]}))] /\
    emitted (handle Scenario.bo disconnect Scenario.answered)
      = [(ToRoom Scenario.thePin, player_left (ps1 ++ ps2))] /\
    completion (handle Scenario.bo disconnect Scenario.answered) = Returned.
Proof.
  refine (player_disconnect_removes_one_entry Scenario.bo Scenario.thePin
            (mkGame Scenario.thePin Scenario.host
               [mkPlayer Scenario.ana "Ana" 0 0; mkPlayer Scenario.bo "Bo" 875 1]
               [Scenario.q0; Scenario.q1] 0 QUESTION
               {[0 := {[Scenario.bo := 0; Scenario.ana := 2]}]})
            [] [] _ _);
    reflexivity.
Defined.

Lemma recorded_zero_does_not_guard_witness :
  exists ps1 pl ps2,
    [mkPlayer Scenario.ana "Ana" 1000 1; mkPlayer Scenario.bo "Bo" 0 0]
      = ps1 ++ pl :: ps2 /\ pid pl = Scenario.ana /\
    hasPlayer Scenario.ana ps1 = false /\
    playersOf (gm_after (handle Scenario.ana
                           (submit_answer Scenario.thePin 0 5)
                           Scenario.anaOnce))
              Scenario.thePin =
      ps1 ++ scored 5 pl :: ps2.
Proof.
  refine (recorded_zero_does_not_guard Scenario.ana Scenario.thePin 0 5
            Scenario.anaOnce
            (mkGame Scenario.thePin Scenario.host
               [mkPlayer Scenario.ana "Ana" 1000 1; mkPlayer Scenario.bo "Bo" 0 0]
               [Scenario.q0; Scenario.q1] 0 QUESTION
               {[0 := {[Scenario.ana := 0]}]})
            Scenario.q0 _ _ _ _ _ _);
    vm_compute; reflexivity.
Defined.

Lemma show_results_without_question_witness :
  handle Scenario.host (show_results Scenario.thePin) Scenario.lobby =
  mkResult
    (putGame Scenario.thePin
       (mkGame Scenario.thePin Scenario.host
          [mkPlayer Scenario.ana "Ana" 0 0; mkPlayer Scenario.bo "Bo" 0 0]
          [Scenario.q0; Scenario.q1] (-1) RESULT ∅)
       Scenario.lobby)
    [] TypeError.
Proof.
  refine (show_results_without_question Scenario.thePin Scenario.lobby
            (mkGame Scenario.thePin Scenario.host
               [mkPlayer Scenario.ana "Ana" 0 0; mkPlayer Scenario.bo "Bo" 0 0]
               [Scenario.q0; Scenario.q1] (-1) LOBBY ∅) _ _);
    reflexivity.
Defined.
